(** * motion_camera.py: frame-difference motion detection over a capture device

    A shallow embedding of [src/python/motion_camera.py] (class
    [MotionCamera]) and of the numpy / OpenCV primitives it calls, followed
    by the properties of [get_motion], [start_capture] and [stop_capture].

    Conventions of the embedding:
    - an 8-bit image is a [np.ndarray Z] (shape and row-major buffer), with
      the saturation of OpenCV's [saturate_cast<uchar>] written out;
    - [np.float32] kernel coefficients and the Python float returned as the
      motion amount are rationals ([Q]): Python's [int / int] is the
      correctly rounded value of the exact quotient, and the rounding of the
      3x3 box filter is insensitive to single-precision error (the exact sum
      is a multiple of 1/9, hence never closer than 1/18 to a rounding tie);
    - a Python exception is the [Raise] outcome of the method monad [M],
      also where the binding refuses an argument: a camera index that is no
      C [int], a width or height that no [double] holds;
    - the capture device is an explicit [World]: per camera index the
      sequence of results its future reads deliver, and the log of the calls
      made on the device. *)

From Stdlib Require Import ZArith QArith Qround List Bool Lia PeanoNat.
Import ListNotations.

Open Scope Z_scope.

(** ** numpy arrays *)

Module np.

(** A two-dimensional array: its shape and its row-major buffer. *)
Record ndarray (A : Type) : Type := mk_ndarray
  { nrows : nat;
    ncols : nat;
    data : list A }.

Arguments mk_ndarray {A} _ _ _.
Arguments nrows {A} _.
Arguments ncols {A} _.
Arguments data {A} _.

Definition shape {A} (a : ndarray A) : nat * nat := (nrows a, ncols a).

(** [a.size]: the product of the dimensions. *)
Definition size {A} (a : ndarray A) : nat := (nrows a * ncols a)%nat.

(** [a[y, x]], with [d] wherever the buffer is too short. *)
Definition item {A} (d : A) (a : ndarray A) (y x : nat) : A :=
  nth (y * ncols a + x) (data a) d.

(** The array of shape [(h, w)] whose entry [(y, x)] is [f y x]. *)
Definition tabulate {A} (h w : nat) (f : nat -> nat -> A) : ndarray A :=
  mk_ndarray h w
    (map (fun i => f (i / w)%nat (i mod w)%nat) (seq 0 (h * w))).

(** The buffer has exactly [size] entries. *)
Definition well_formed {A} (a : ndarray A) : Prop :=
  length (data a) = size a.

(** [np.zeros_like(a)] *)
Definition zeros_like (a : ndarray Z) : ndarray Z :=
  mk_ndarray (nrows a) (ncols a) (repeat 0 (nrows a * ncols a)).

(** [np.count_nonzero(a)] *)
Definition count_nonzero (a : ndarray Z) : nat :=
  length (filter (fun v => negb (v =? 0)) (data a)).

(** [np.ones((h, w), np.float32)] *)
Definition ones (h w : nat) : ndarray Q :=
  tabulate h w (fun _ _ => 1%Q).

(** [a / c] for a float array and a scalar. *)
Definition divide (a : ndarray Q) (c : Q) : ndarray Q :=
  mk_ndarray (nrows a) (ncols a) (map (fun v => (v / c)%Q) (data a)).

End np.

Import np.

(** ** Python outcomes *)

Inductive exn : Type :=
| cv2_error          (* cv2.error raised by an OpenCV assertion *)
| ZeroDivisionError
| AttributeError
| OverflowError.     (* a Python int too large to convert to float *)

Inductive outcome (A : Type) : Type :=
| Return (a : A)
| Raise (e : exn).

Arguments Return {A} a.
Arguments Raise {A} e.

(** Python's true division [a / b] of two ints. *)
Definition truediv (a b : Z) : outcome Q :=
  if b =? 0 then Raise ZeroDivisionError
  else Return (inject_Z a / inject_Z b)%Q.

(** ** OpenCV primitives *)

(** A colour pixel in OpenCV's channel order. *)
Record pixel : Type := bgr { blue : Z; green : Z; red : Z }.

Definition Frame : Type := ndarray pixel.
Definition Image : Type := ndarray Z.

(** The calls made on the capture device, in order. *)
Inductive call : Type :=
| CallOpen (index : Z)                        (* cv2.VideoCapture(index) *)
| CallSet (index : Z) (prop : Z) (value : Z)  (* cap.set(prop, value) *)
| CallRead (index : Z)                        (* cap.read() *)
| CallRelease (index : Z).                    (* cap.release() *)

(** The environment of the program.  [camera i] is [None] when device [i]
    cannot be opened, and otherwise the results its next reads deliver, in
    order: [Some f] for a frame, [None] for a read that fails.  Reads beyond
    the end of the list fail. *)
Record World : Type := mk_World
  { camera : Z -> option (list (option Frame));
    calls : list call }.

Module cv2.

Definition CAP_PROP_FRAME_WIDTH : Z := 3.
Definition CAP_PROP_FRAME_HEIGHT : Z := 4.

Inductive ColorConversionCode : Type := COLOR_BGR2GRAY.
Inductive ThresholdTypes : Type := THRESH_BINARY.

(** [saturate_cast<uchar>] on an integer. *)
Definition saturate_u8 (v : Z) : Z := Z.max 0 (Z.min 255 v).

(** [cvRound]: to the nearest integer, ties to even. *)
Definition cvRound (q : Q) : Z :=
  let f := Qfloor q in
  match (q - inject_Z f ?= 1 # 2)%Q with
  | Lt => f
  | Gt => f + 1
  | Eq => if Z.even f then f else f + 1
  end.

(** [Mat::empty()]: no rows or no columns. *)
Definition empty {A} (a : ndarray A) : bool :=
  ((nrows a =? 0) || (ncols a =? 0))%nat.

(** *** Video capture *)

(** A capture object: the device it is bound to, and whether the device
    was opened and not released since. *)
Record VideoCapture : Type := mk_VideoCapture
  { device : Z;
    opened : bool }.

Definition log (c : call) (w : World) : World :=
  mk_World (camera w) (calls w ++ [c]).

(** A Python int that a C [int] holds. *)
Definition fits_int (v : Z) : bool := (- 2 ^ 31 <=? v) && (v <? 2 ^ 31).

(** A Python int that converts to a [double]: its nearest double is
    finite. *)
Definition fits_double (v : Z) : bool := Z.abs v <? 2 ^ 1024 - 2 ^ 970.

(** [cv2.VideoCapture(index)]: the binding refuses, with [cv2.error] and
    before any call on the device, an index that is no C [int]; otherwise
    the object is open exactly when the device could be opened. *)
Definition VideoCapture_ (index : Z) (w : World)
  : outcome VideoCapture * World :=
  if fits_int index then
    (Return
       (mk_VideoCapture index
          (match camera w index with Some _ => true | None => false end)),
     log (CallOpen index) w)
  else (Raise cv2_error, w).

(** [cap.isOpened()] *)
Definition isOpened (c : VideoCapture) : bool := opened c.

(** [cap.set(prop, value)], [value] a [double]: an int that does not
    convert raises [OverflowError] before any call on the device.  The
    request is advisory; the result tells whether the capture is open to
    receive it. *)
Definition set (c : VideoCapture) (prop value : Z) (w : World)
  : outcome bool * World :=
  if fits_double value then
    (Return (opened c), log (CallSet (device c) prop value) w)
  else (Raise OverflowError, w).

(** [cap.read()]: [(True, frame)] is [Some frame], [(False, None)] is
    [None].  The result is [!image.empty()], so an empty image counts as a
    failed read.  A capture that is not open delivers nothing and consumes
    nothing. *)
Definition read (c : VideoCapture) (w : World) : option Frame * World :=
  let w' := log (CallRead (device c)) w in
  if opened c then
    match camera w (device c) with
    | Some (r :: rest) =>
        (match r with
         | Some image => if empty image then None else Some image
         | None => None
         end,
         mk_World
           (fun i => if i =? device c then Some rest else camera w i)
           (calls w'))
    | _ => (None, w')
    end
  else (None, w').

(** [cap.release()] *)
Definition release (c : VideoCapture) (w : World) : VideoCapture * World :=
  (mk_VideoCapture (device c) false, log (CallRelease (device c)) w).

(** *** Image processing *)

(** Luminance of a pixel, [0.299 R + 0.587 G + 0.114 B] in the 15-bit
    fixed point of the 8-bit conversion. *)
Definition gray_of (p : pixel) : Z :=
  saturate_u8
    (Z.shiftr (3735 * blue p + 19235 * green p + 9798 * red p + 16384) 15).

(** [cv2.cvtColor(src, code)]; an empty source fails the assertion
    [!_src.empty()]. *)
Definition cvtColor (src : Frame) (code : ColorConversionCode)
  : outcome Image :=
  match code with
  | COLOR_BGR2GRAY =>
      if empty src then Raise cv2_error
      else Return (mk_ndarray (nrows src) (ncols src)
                     (map gray_of (data src)))
  end.

(** [borderInterpolate(p, len, BORDER_REFLECT_101)]: the default border
    of [filter2D], [gfedcb|abcdefgh|gfedcba]. *)
Definition borderInterpolate (p : Z) (len : nat) : nat :=
  let n := Z.of_nat len in
  if n <=? 1 then 0%nat
  else
    let q := p mod (2 * n - 2) in
    Z.to_nat (if q <? n then q else 2 * n - 2 - q).

(** The correlation sum of [filter2D] at [(y, x)], anchor at the kernel
    centre. *)
Definition correlate (src : Image) (kernel : ndarray Q) (y x : nat) : Q :=
  let ay := Z.of_nat (nrows kernel / 2) in
  let ax := Z.of_nat (ncols kernel / 2) in
  fold_right Qplus 0%Q
    (flat_map
       (fun i =>
          map (fun j =>
                 (item 0%Q kernel i j *
                  inject_Z
                    (item 0%Z src
                       (borderInterpolate
                          (Z.of_nat y + Z.of_nat i - ay) (nrows src))
                       (borderInterpolate
                          (Z.of_nat x + Z.of_nat j - ax) (ncols src))))%Q)
            (seq 0 (ncols kernel)))
       (seq 0 (nrows kernel))).

(** [cv2.filter2D(src, -1, kernel)]: destination of the depth of the
    source, here 8-bit unsigned. *)
Definition filter2D (src : Image) (kernel : ndarray Q) : outcome Image :=
  if empty kernel then Raise cv2_error
  else Return (tabulate (nrows src) (ncols src)
                 (fun y x => saturate_u8 (cvRound (correlate src kernel y x)))).

(** [cv2.absdiff(src1, src2)]: arrays of different shapes are refused. *)
Definition absdiff (src1 src2 : Image) : outcome Image :=
  if ((nrows src1 =? nrows src2) && (ncols src1 =? ncols src2))%nat then
    Return (mk_ndarray (nrows src1) (ncols src1)
              (map (fun ab => saturate_u8 (Z.abs (fst ab - snd ab)))
                 (combine (data src1) (data src2))))
  else Raise cv2_error.

(** [cv2.threshold(src, thresh, maxval, type)], returning the threshold
    used and the binarized image. *)
Definition threshold (src : Image) (thresh maxval : Z) (type : ThresholdTypes)
  : Z * Image :=
  match type with
  | THRESH_BINARY =>
      (thresh,
       mk_ndarray (nrows src) (ncols src)
         (map (fun v => if v >? thresh then saturate_u8 maxval else 0)
            (data src)))
  end.

End cv2.

(** ** The class MotionCamera *)

Record MotionCamera : Type := mk_MotionCamera
  { camera_index : Z;
    width : Z;
    height : Z;
    cap : option cv2.VideoCapture;
    last_frame : option Image;
    kernel : ndarray Q }.

(** [MotionCamera.__init__] *)
Definition __init__ (camera_index width height : Z) : MotionCamera :=
  mk_MotionCamera camera_index width height None None
    (np.divide (np.ones 3 3) 9).

(** A method runs on the object and the world, and returns or raises; what
    it changed before raising stays changed. *)
Record Machine : Type := mk_Machine
  { self : MotionCamera;
    world : World }.

Definition M (A : Type) : Type := Machine -> outcome A * Machine.

Definition ret {A} (a : A) : M A := fun m => (Return a, m).

Definition bind {A B} (c : M A) (k : A -> M B) : M B :=
  fun m =>
    match c m with
    | (Return a, m') => k a m'
    | (Raise e, m') => (Raise e, m')
    end.

Declare Scope py_scope.
Delimit Scope py_scope with py.

Notation "x <- c ;; k" := (bind c (fun x => k))
  (at level 100, c at next level, right associativity) : py_scope.
Notation "c ;; k" := (bind c (fun _ => k))
  (at level 100, right associativity) : py_scope.

Open Scope py_scope.

Definition get_self : M MotionCamera := fun m => (Return (self m), m).

(** A call on the device. *)
Definition io {A} (f : World -> A * World) : M A :=
  fun m => let (a, w) := f (world m) in (Return a, mk_Machine (self m) w).

(** A call on the device that may raise. *)
Definition io_try {A} (f : World -> outcome A * World) : M A :=
  fun m => let (o, w) := f (world m) in (o, mk_Machine (self m) w).

(** A library call that may raise. *)
Definition lift {A} (o : outcome A) : M A := fun m => (o, m).

(** [self.cap = c] *)
Definition set_cap (c : option cv2.VideoCapture) : M unit :=
  fun m =>
    let s := self m in
    (Return tt,
     mk_Machine
       (mk_MotionCamera (camera_index s) (width s) (height s) c
          (last_frame s) (kernel s))
       (world m)).

(** [self.last_frame = f] *)
Definition set_last_frame (f : option Image) : M unit :=
  fun m =>
    let s := self m in
    (Return tt,
     mk_Machine
       (mk_MotionCamera (camera_index s) (width s) (height s) (cap s) f
          (kernel s))
       (world m)).

(** [MotionCamera.start_capture] *)
Definition start_capture : M unit :=
  s <- get_self ;;
  c <- io_try (cv2.VideoCapture_ (camera_index s)) ;;
  set_cap (Some c) ;;
  _ <- io_try (cv2.set c cv2.CAP_PROP_FRAME_WIDTH (width s)) ;;
  _ <- io_try (cv2.set c cv2.CAP_PROP_FRAME_HEIGHT (height s)) ;;
  ret tt.

(** [MotionCamera.stop_capture]; a capture object is always truthy, so
    [if self.cap] tests for [None]. *)
Definition stop_capture : M unit :=
  s <- get_self ;;
  match cap s with
  | Some c => _ <- io (cv2.release c) ;; set_cap None
  | None => ret tt
  end ;;
  set_last_frame None.

(** [MotionCamera._apply_kernel] *)
Definition _apply_kernel (frame : Frame) (kernel_arg : option (ndarray Q))
  : M Image :=
  s <- get_self ;;
  gray <- lift (cv2.cvtColor frame cv2.COLOR_BGR2GRAY) ;;
  let k := match kernel_arg with Some k => k | None => kernel s end in
  lift (cv2.filter2D gray k).

(** Lines 52-55 of [MotionCamera.get_motion]: the lazy start and the read
    of this call. *)
Definition get_motion_read : M (option Frame) :=
  s <- get_self ;;
  (if match cap s with
      | None => true
      | Some c => negb (cv2.isOpened c)
      end
   then start_capture else ret tt) ;;
  s <- get_self ;;
  match cap s with
  | Some c => io (cv2.read c)
  | None => lift (Raise AttributeError)
  end.

(** [MotionCamera.get_motion]: the captured frame, the motion mask and the
    motion amount. *)
Definition get_motion : M (option Frame * option Image * Q) :=
  r <- get_motion_read ;;
  match r with
  | None => ret (None, None, 0%Q)
  | Some frame =>
      processed <- _apply_kernel frame None ;;
      let motion_frame := np.zeros_like processed in
      let motion_amount := 0%Q in
      s <- get_self ;;
      res <- match last_frame s with
             | Some last =>
                 diff <- lift (cv2.absdiff processed last) ;;
                 let motion_frame :=
                   snd (cv2.threshold diff 30 255 cv2.THRESH_BINARY) in
                 motion_amount <-
                   lift (truediv
                          (Z.of_nat (np.count_nonzero motion_frame) * 100)
                          (Z.of_nat (np.size motion_frame))) ;;
                 ret (motion_frame, motion_amount)
             | None => ret (motion_frame, motion_amount)
             end ;;
      set_last_frame (Some processed) ;;
      ret (Some frame, Some (fst res), snd res)
  end.

(** ** Notions used by the properties *)

(** The machine after [self.last_frame = processed]. *)
Definition store (p : Image) (m : Machine) : Machine :=
  snd (set_last_frame (Some p) m).

(** The motion amount the specification gives for a mask:
    [count_nonzero * 100 / size]. *)
Definition amount_of (mask : Image) : Q :=
  (inject_Z (Z.of_nat (count_nonzero mask) * 100) /
   inject_Z (Z.of_nat (size mask)))%Q.

(** The binarized difference of a processed frame and the previous one. *)
Definition motion_mask (d : Image) : Image :=
  snd (cv2.threshold d 30 255 cv2.THRESH_BINARY).

(** A configuration the binding accepts: the camera index is a C [int],
    the width and the height convert to [double]. *)
Definition representable (s : MotionCamera) : Prop :=
  cv2.fits_int (camera_index s) = true /\
  cv2.fits_double (width s) = true /\
  cv2.fits_double (height s) = true.

(** The capture object [start_capture] acquires. *)
Definition acquired (m : Machine) : cv2.VideoCapture :=
  cv2.mk_VideoCapture (camera_index (self m))
    (match camera (world m) (camera_index (self m)) with
     | Some _ => true
     | None => false
     end).

(** The machine [start_capture] leaves once it has acquired the capture
    and made the calls [l] on the device. *)
Definition started_with (l : list call) (m : Machine) : Machine :=
  mk_Machine
    (mk_MotionCamera (camera_index (self m)) (width (self m))
       (height (self m)) (Some (acquired m)) (last_frame (self m))
       (kernel (self m)))
    (mk_World (camera (world m)) (calls (world m) ++ l)).

(** The read after a lazy start, when the start returns. *)
Definition lazy_read (m : Machine) : outcome (option Frame) * Machine :=
  match start_capture m with
  | (Return _, m1) => io (cv2.read (acquired m)) m1
  | (Raise e, m1) => (Raise e, m1)
  end.

(** The default kernel of [__init__]. *)
Definition box_kernel : ndarray Q := np.divide (np.ones 3 3) 9.

(** An 8-bit value. *)
Definition is_u8 (v : Z) : Prop := 0 <= v <= 255.

(** A colour frame showing a gray image: the three channels carry the same
    value. *)
Definition gray_frame (h w : nat) (g : list Z) : Frame :=
  mk_ndarray h w (map (fun v => bgr v v v) g).

(** The integer sum of the source pixels under a [kr] x [kc] window
    anchored at its centre on [(y, x)], borders reflected. *)
Definition window (src : Image) (kr kc : nat) (y x : nat) : Z :=
  fold_right Z.add 0
    (flat_map
       (fun i =>
          map (fun j =>
                 item 0 src
                   (cv2.borderInterpolate
                      (Z.of_nat y + Z.of_nat i - Z.of_nat (kr / 2)) (nrows src))
                   (cv2.borderInterpolate
                      (Z.of_nat x + Z.of_nat j - Z.of_nat (kc / 2)) (ncols src)))
            (seq 0 kc))
       (seq 0 kr)).

(** The 3x3 box blur in integer arithmetic: the window sum over 9, to the
    nearest integer. *)
Definition box_blur (src : Image) : Image :=
  tabulate (nrows src) (ncols src)
    (fun y x => cv2.saturate_u8 ((window src 3 3 y x + 4) / 9)).

(** Pointwise difference of two pixel lists. *)
Definition delta (g2 g1 : list Z) : list Z :=
  map (fun ab => fst ab - snd ab) (combine g2 g1).

(** Two pixel lists that differ at exactly two indices, by [c] in absolute
    value at each. *)
Definition differ_in_two_by (c : Z) (g1 g2 : list Z) : Prop :=
  length g1 = length g2 /\
  exists p q,
    (p < length g1)%nat /\ (q < length g1)%nat /\ p <> q /\
    Z.abs (nth p g2 0 - nth p g1 0) = c /\
    Z.abs (nth q g2 0 - nth q g1 0) = c /\
    forall k, k <> p -> k <> q -> nth k g2 0 = nth k g1 0.

(** A 4x4 difference image: [sp] at index [p], [sq] at index [q], zero
    elsewhere. *)
Definition pattern (p q : nat) (sp sq : Z) : list Z :=
  map (fun k => if (k =? p)%nat then sp
                else if (k =? q)%nat then sq else 0)
    (seq 0 16).

(** Whether the window sum of a 4x4 difference image at buffer index [i]
    is large enough to move the blurred value by more than 30. *)
Definition hot (D : list Z) (i : nat) : bool :=
  270 <? Z.abs (window (mk_ndarray 4 4 D) 3 3 (i / 4) (i mod 4)).

(** No two deltas of 50 make more than one pixel of a 4x4 image hot. *)
Definition at_most_one_hot : bool :=
  forallb (fun p =>
    forallb (fun q =>
      forallb (fun sp =>
        forallb (fun sq =>
          (p =? q)%nat ||
          (length (filter (hot (pattern p q sp sq)) (seq 0 16)) <=? 1)%nat)
          [50; -50])
        [50; -50])
      (seq 0 16))
    (seq 0 16).

(** ** Runs on a steady camera *)

(** Every frame a camera of the world delivers has shape [sh]. *)
Definition steady (sh : nat * nat) (w : World) : Prop :=
  forall i feed f,
    camera w i = Some feed -> In (Some f) feed -> shape f = sh.

(** The machines a program reaches from a newly constructed object by
    calling its methods. *)
Inductive reachable (index width height : Z) (w0 : World) : Machine -> Prop :=
| reach_init :
    reachable index width height w0
      (mk_Machine (__init__ index width height) w0)
| reach_start m :
    reachable index width height w0 m ->
    reachable index width height w0 (snd (start_capture m))
| reach_stop m :
    reachable index width height w0 m ->
    reachable index width height w0 (snd (stop_capture m))
| reach_motion m :
    reachable index width height w0 m ->
    reachable index width height w0 (snd (get_motion m)).

(** The configuration is representable, the kernel is the default one, the
    cameras are steady and the previous frame, if any, has their shape. *)
Definition settled (sh : nat * nat) (m : Machine) : Prop :=
  representable (self m) /\
  kernel (self m) = box_kernel /\
  steady sh (world m) /\
  forall last, last_frame (self m) = Some last -> shape last = sh.

(** ** Concrete scenarios *)

(** A world with one camera, at [index], that delivers [feed]. *)
Definition world_of (index : Z) (feed : list (option Frame)) : World :=
  mk_World (fun i => if i =? index then Some feed else None) [].

(** A newly constructed [MotionCamera()] in front of camera 0. *)
Definition fresh (feed : list (option Frame)) : Machine :=
  mk_Machine (__init__ 0 640 480) (world_of 0 feed).

Definition after_first_call (feed : list (option Frame)) : Machine :=
  snd (get_motion (fresh feed)).

(** A uniform 2x2 frame. *)
Definition flat (v : Z) : Frame := gray_frame 2 2 [v; v; v; v].

(** 4x4 frames: all black; 50 at two opposite corners; 50 at the first two
    pixels of the second row. *)
Definition black : list Z :=
  [0; 0; 0; 0;  0; 0; 0; 0;  0; 0; 0; 0;  0; 0; 0; 0].

Definition corners : list Z :=
  [50; 0; 0; 0;  0; 0; 0; 0;  0; 0; 0; 0;  0; 0; 0; 50].

Definition near_corner : list Z :=
  [0; 0; 0; 0;  50; 50; 0; 0;  0; 0; 0; 0;  0; 0; 0; 0].

(** ** Notions for the further properties *)

(** The kernel [_apply_kernel] uses. *)
Definition kernel_used (kernel_arg : option (ndarray Q)) (m : Machine)
  : ndarray Q :=
  match kernel_arg with Some k => k | None => kernel (self m) end.

(** The 1x1 kernel of coefficient 1. *)
Definition identity_kernel : ndarray Q := mk_ndarray 1 1 [1%Q].

(** A frame of one gray level. *)
Definition uniform (h w : nat) (v : Z) : Frame :=
  gray_frame h w (repeat v (h * w)).

(** Two pixels whose channels differ by at most [c]. *)
Definition close (c : Z) (p q : pixel) : Prop :=
  Z.abs (blue p - blue q) <= c /\
  Z.abs (green p - green q) <= c /\
  Z.abs (red p - red q) <= c.

(** Two frames of one shape whose pixels are [close]. *)
Definition within (c : Z) (f1 f2 : Frame) : Prop :=
  shape f1 = shape f2 /\ Forall2 (close c) (data f1) (data f2).

(** The number of entries of an image that exceed 30. *)
Definition changed_pixels (d : Image) : nat :=
  length (filter (fun v => 30 <? v) (data d)).

(** A caller's loop: [n] calls of [get_motion] in a row, stopped by the
    first exception. *)
Fixpoint poll (n : nat) (m : Machine)
  : list (outcome (option Frame * option Image * Q)) * Machine :=
  match n with
  | O => ([], m)
  | S n' =>
      match get_motion m with
      | (Return r, m1) =>
          let (rest, m2) := poll n' m1 in (Return r :: rest, m2)
      | (Raise e, m1) => ([Raise e], m1)
      end
  end.

(** Two machines that differ in the call log only. *)
Definition same_but_log (m m' : Machine) : Prop :=
  self m = self m' /\ camera (world m) = camera (world m').

(** The object holds no open capture. *)
Definition not_capturing (m : Machine) : Prop :=
  cap (self m) = None \/
  exists c, cap (self m) = Some c /\ cv2.isOpened c = false.

(** The device calls of one lazy start followed by a read. *)
Definition start_and_read (s : MotionCamera) : list call :=
  [CallOpen (camera_index s);
   CallSet (camera_index s) cv2.CAP_PROP_FRAME_WIDTH (width s);
   CallSet (camera_index s) cv2.CAP_PROP_FRAME_HEIGHT (height s);
   CallRead (camera_index s)].

(** The device calls an object configured with [index], [wd] and [ht] may
    make. *)
Definition issued (index wd ht : Z) (c : call) : Prop :=
  c = CallOpen index \/
  c = CallSet index cv2.CAP_PROP_FRAME_WIDTH wd \/
  c = CallSet index cv2.CAP_PROP_FRAME_HEIGHT ht \/
  c = CallRead index \/
  c = CallRelease index.

(** What every method keeps of an object configured with [index], [wd]
    and [ht] in a world whose log started as [log0]. *)
Definition configured (index wd ht : Z) (log0 : list call)
  (m : Machine) : Prop :=
  camera_index (self m) = index /\
  width (self m) = wd /\
  height (self m) = ht /\
  kernel (self m) = box_kernel /\
  (forall c, cap (self m) = Some c -> cv2.device c = index) /\
  (forall last, last_frame (self m) = Some last ->
                well_formed last /\ Forall is_u8 (data last)) /\
  exists l, calls (world m) = log0 ++ l /\
            Forall (issued index wd ht) l.

(** * Properties *)

Ltac run := cbv [bind ret get_self io io_try lift set_cap set_last_frame];
  cbn [fst snd self world camera_index width height cap last_frame kernel].

(** [start_capture], run: refused at the index, at the width, at the
    height, or done. *)
Lemma start_capture_run m :
  start_capture m =
    if cv2.fits_int (camera_index (self m)) then
      if cv2.fits_double (width (self m)) then
        if cv2.fits_double (height (self m)) then
          (Return tt,
           started_with
             [CallOpen (camera_index (self m));
              CallSet (camera_index (self m)) cv2.CAP_PROP_FRAME_WIDTH
                (width (self m));
              CallSet (camera_index (self m)) cv2.CAP_PROP_FRAME_HEIGHT
                (height (self m))] m)
        else
          (Raise OverflowError,
           started_with
             [CallOpen (camera_index (self m));
              CallSet (camera_index (self m)) cv2.CAP_PROP_FRAME_WIDTH
                (width (self m))] m)
      else
        (Raise OverflowError,
         started_with [CallOpen (camera_index (self m))] m)
    else (Raise cv2_error, m).
Proof.
  unfold start_capture, started_with, acquired. run.
  unfold cv2.VideoCapture_.
  destruct (cv2.fits_int (camera_index (self m))); [|destruct m; reflexivity].
  cbn [fst snd self world camera_index width height cap last_frame kernel].
  unfold cv2.set. cbn [cv2.device].
  destruct (cv2.fits_double (width (self m)));
    [|unfold cv2.log; reflexivity].
  cbn [fst snd self world camera_index width height cap last_frame kernel].
  destruct (cv2.fits_double (height (self m)));
    cbn [fst snd self world camera_index width height cap last_frame kernel];
    unfold cv2.log; cbn [camera calls];
    rewrite <- ?app_assoc; reflexivity.
Qed.

(** On a representable configuration [start_capture] returns. *)
Lemma start_capture_ok m :
  representable (self m) ->
  start_capture m =
    (Return tt,
     started_with
       [CallOpen (camera_index (self m));
        CallSet (camera_index (self m)) cv2.CAP_PROP_FRAME_WIDTH
          (width (self m));
        CallSet (camera_index (self m)) cv2.CAP_PROP_FRAME_HEIGHT
          (height (self m))] m).
Proof.
  intros (Hi & Hw & Hh). now rewrite start_capture_run, Hi, Hw, Hh.
Qed.

(** Whatever [start_capture] does, the machine it leaves is the one it
    found or one with the capture acquired and some calls made; it returns
    exactly on a representable configuration. *)
Lemma start_capture_any m :
  exists o m',
    start_capture m = (o, m') /\
    (m' = m \/ exists l, m' = started_with l m /\
                         incl l
                           [CallOpen (camera_index (self m));
                            CallSet (camera_index (self m))
                              cv2.CAP_PROP_FRAME_WIDTH (width (self m));
                            CallSet (camera_index (self m))
                              cv2.CAP_PROP_FRAME_HEIGHT (height (self m))]) /\
    (o = Return tt <-> representable (self m)).
Proof.
  rewrite start_capture_run. unfold representable.
  destruct (cv2.fits_int (camera_index (self m)));
    [destruct (cv2.fits_double (width (self m)));
     [destruct (cv2.fits_double (height (self m)))|]|];
    do 2 eexists; (split; [reflexivity|]); split.
  - right. eexists. split; [reflexivity|]. apply incl_refl.
  - tauto.
  - right. eexists. split; [reflexivity|]. intros c Hc. cbn in *. tauto.
  - split; [discriminate|]. intros (_ & _ & H). discriminate H.
  - right. eexists. split; [reflexivity|]. intros c Hc. cbn in *. tauto.
  - split; [discriminate|]. intros (_ & H & _). discriminate H.
  - now left.
  - split; [discriminate|]. intros (H & _). discriminate H.
Qed.

Lemma apply_kernel_state f k m : snd (_apply_kernel f k m) = m.
Proof.
  unfold _apply_kernel. run.
  destruct (cv2.cvtColor f cv2.COLOR_BGR2GRAY); reflexivity.
Qed.

Lemma get_motion_unfold m :
  get_motion m =
    match get_motion_read m with
    | (Raise e, m1) => (Raise e, m1)
    | (Return None, m1) => (Return (None, None, 0%Q), m1)
    | (Return (Some f), m1) =>
        match fst (_apply_kernel f None m1) with
        | Raise e => (Raise e, m1)
        | Return p =>
            match last_frame (self m1) with
            | None => (Return (Some f, Some (zeros_like p), 0%Q), store p m1)
            | Some last =>
                match cv2.absdiff p last with
                | Raise e => (Raise e, m1)
                | Return d =>
                    let mf := snd (cv2.threshold d 30 255 cv2.THRESH_BINARY) in
                    match truediv (Z.of_nat (count_nonzero mf) * 100)
                            (Z.of_nat (size mf)) with
                    | Raise e => (Raise e, m1)
                    | Return a => (Return (Some f, Some mf, a), store p m1)
                    end
                end
            end
        end
    end.
Proof.
  unfold get_motion at 1. unfold bind at 1.
  destruct (get_motion_read m) as [[[f|]|e] m1]; try reflexivity.
  unfold bind at 1.
  pose proof (apply_kernel_state f None m1) as Hs.
  destruct (_apply_kernel f None m1) as [[p|e] m1']; simpl in Hs; subst m1'; simpl; try reflexivity.
  run.
  destruct (last_frame (self m1)) as [last|]; simpl; try reflexivity.
  destruct (cv2.absdiff p last) as [d|e]; simpl; try reflexivity.
  destruct (truediv _ _); reflexivity.
Qed.

(** ** Facts on the library model *)

(** The reflected border: [-1] is pixel 1 and [len] is pixel [len - 2]. *)
Example borderInterpolate_reflects :
  map (fun p => cv2.borderInterpolate p 4) [-2; -1; 0; 3; 4; 5] =
    [2; 1; 0; 3; 2; 1]%nat.
Proof. reflexivity. Qed.

Example cvRound_ties_to_even :
  map cv2.cvRound [5 # 2; 7 # 2; - (1 # 2); 22 # 9; 23 # 9]%Q = [2; 4; 0; 2; 3].
Proof. reflexivity. Qed.

Example gray_of_primaries :
  map cv2.gray_of [bgr 255 0 0; bgr 0 255 0; bgr 0 0 255; bgr 255 255 255] =
    [29; 150; 76; 255].
Proof. reflexivity. Qed.

Lemma tabulate_well_formed {A} h w (f : nat -> nat -> A) :
  well_formed (tabulate h w f).
Proof.
  unfold well_formed, size, tabulate. cbn [data nrows ncols].
  now rewrite length_map, length_seq.
Qed.

Lemma count_nonzero_le_length (a : Image) :
  (count_nonzero a <= length (data a))%nat.
Proof. unfold count_nonzero. apply filter_length_le. Qed.

Lemma filter2D_shape g k p :
  cv2.filter2D g k = Return p ->
  nrows p = nrows g /\ ncols p = ncols g /\ well_formed p /\
  cv2.empty k = false.
Proof.
  unfold cv2.filter2D. destruct (cv2.empty k); [discriminate|].
  intros H. injection H as <-. repeat split. apply tabulate_well_formed.
Qed.

Lemma cvtColor_shape f g :
  cv2.cvtColor f cv2.COLOR_BGR2GRAY = Return g ->
  nrows g = nrows f /\ ncols g = ncols f /\ cv2.empty f = false /\
  data g = map cv2.gray_of (data f).
Proof.
  unfold cv2.cvtColor. destruct (cv2.empty f); [discriminate|].
  intros H. injection H as <-. repeat split.
Qed.

Lemma apply_kernel_run f m :
  _apply_kernel f None m =
    (match cv2.cvtColor f cv2.COLOR_BGR2GRAY with
     | Return g => cv2.filter2D g (kernel (self m))
     | Raise e => Raise e
     end, m).
Proof.
  unfold _apply_kernel. run.
  destruct (cv2.cvtColor f cv2.COLOR_BGR2GRAY); reflexivity.
Qed.

Lemma apply_kernel_shape f m p :
  fst (_apply_kernel f None m) = Return p ->
  shape p = shape f /\ well_formed p /\
  cv2.empty f = false /\ cv2.empty (kernel (self m)) = false.
Proof.
  rewrite apply_kernel_run. cbn [fst].
  destruct (cv2.cvtColor f cv2.COLOR_BGR2GRAY) as [g|e] eqn:Eg; [|discriminate].
  intros Hp. apply cvtColor_shape in Eg. apply filter2D_shape in Hp.
  unfold shape. intuition congruence.
Qed.

Lemma apply_kernel_returns f m :
  cv2.empty f = false -> cv2.empty (kernel (self m)) = false ->
  exists p, fst (_apply_kernel f None m) = Return p.
Proof.
  intros Hf Hk. rewrite apply_kernel_run. cbn [fst].
  unfold cv2.cvtColor, cv2.filter2D. rewrite Hf, Hk. eauto.
Qed.

Lemma absdiff_shape p last d :
  cv2.absdiff p last = Return d ->
  shape d = shape p /\ shape last = shape p /\
  (length (data d) <= length (data p))%nat.
Proof.
  unfold cv2.absdiff, shape.
  destruct (Nat.eqb_spec (nrows p) (nrows last)) as [Hr|]; [|discriminate].
  destruct (Nat.eqb_spec (ncols p) (ncols last)) as [Hc|]; [|discriminate].
  cbn [andb]. intros H. injection H as <-. cbn [nrows ncols data].
  rewrite length_map, length_combine. repeat split; try congruence. lia.
Qed.

Lemma absdiff_returns p last :
  shape last = shape p -> exists d, cv2.absdiff p last = Return d.
Proof.
  unfold shape, cv2.absdiff. intros H. injection H as Hr Hc.
  rewrite Hr, Hc, !Nat.eqb_refl. cbn [andb]. eauto.
Qed.

(** ** The read of a call *)

Lemma io_run {A} (f : World -> A * World) m :
  io f m = (Return (fst (f (world m))), mk_Machine (self m) (snd (f (world m)))).
Proof. unfold io. destruct (f (world m)); reflexivity. Qed.

(** An open capture is read at once; otherwise [start_capture] runs first
    and the capture it acquired is read. *)
Lemma get_motion_read_run m :
  get_motion_read m =
    match cap (self m) with
    | Some c => if cv2.isOpened c then io (cv2.read c) m else lazy_read m
    | None => lazy_read m
    end.
Proof.
  assert (Hlazy : bind start_capture
                    (fun _ =>
                       bind get_self
                         (fun s =>
                            match cap s with
                            | Some c => io (cv2.read c)
                            | None => lift (Raise AttributeError)
                            end)) m = lazy_read m).
  { unfold lazy_read, bind at 1. rewrite start_capture_run.
    destruct (cv2.fits_int (camera_index (self m)));
      [destruct (cv2.fits_double (width (self m)));
       [destruct (cv2.fits_double (height (self m)))|]|]; reflexivity. }
  unfold get_motion_read. unfold bind at 1. unfold get_self at 1.
  destruct (cap (self m)) as [c|] eqn:Ec.
  - destruct (cv2.isOpened c) eqn:Eo; cbn [negb].
    + run. rewrite Ec. reflexivity.
    + exact Hlazy.
  - exact Hlazy.
Qed.

(** The lazy read on a representable configuration. *)
Lemma lazy_read_ok m :
  representable (self m) ->
  lazy_read m =
    io (cv2.read (acquired m))
      (started_with
         [CallOpen (camera_index (self m));
          CallSet (camera_index (self m)) cv2.CAP_PROP_FRAME_WIDTH
            (width (self m));
          CallSet (camera_index (self m)) cv2.CAP_PROP_FRAME_HEIGHT
            (height (self m))] m).
Proof. intros H. unfold lazy_read. now rewrite start_capture_ok. Qed.

(** What the lazy read leaves: the machine [start_capture] left, read once
    when the start returned. *)
Lemma lazy_read_any m o m1 :
  lazy_read m = (o, m1) ->
  (m1 = snd (start_capture m) /\
   exists e, o = Raise e /\ fst (start_capture m) = Raise e /\
             ~ representable (self m)) \/
  (representable (self m) /\
   fst (start_capture m) = Return tt /\
   o = Return (fst (cv2.read (acquired m) (world (snd (start_capture m))))) /\
   m1 = mk_Machine (self (snd (start_capture m)))
          (snd (cv2.read (acquired m) (world (snd (start_capture m)))))).
Proof.
  unfold lazy_read.
  destruct (start_capture_any m) as (o' & m' & E & _ & Hrep). rewrite E.
  cbn [fst snd]. destruct o' as [[]|e].
  - rewrite io_run. intros H. injection H as <- <-. right.
    split; [now apply Hrep|]. auto.
  - intros H. injection H as <- <-. left. split; [reflexivity|].
    exists e. split; [reflexivity|]. split; [reflexivity|].
    intros H. apply Hrep in H. discriminate H.
Qed.

(** The read leaves the configuration, the kernel and the previous frame
    as they were; on a representable configuration it does not raise. *)
Lemma get_motion_read_frame m o m1 :
  get_motion_read m = (o, m1) ->
  (representable (self m) -> exists r, o = Return r) /\
  last_frame (self m1) = last_frame (self m) /\
  kernel (self m1) = kernel (self m) /\
  camera_index (self m1) = camera_index (self m) /\
  width (self m1) = width (self m) /\
  height (self m1) = height (self m).
Proof.
  assert (Hs : last_frame (self (snd (start_capture m))) = last_frame (self m) /\
               kernel (self (snd (start_capture m))) = kernel (self m) /\
               camera_index (self (snd (start_capture m))) = camera_index (self m) /\
               width (self (snd (start_capture m))) = width (self m) /\
               height (self (snd (start_capture m))) = height (self m)).
  { destruct (start_capture_any m) as (o' & m' & E & [->|(l & -> & _)] & _);
      rewrite E; cbn; auto. }
  rewrite get_motion_read_run.
  assert (Hlazy : lazy_read m = (o, m1) ->
                  (representable (self m) -> exists r, o = Return r) /\
                  last_frame (self m1) = last_frame (self m) /\
                  kernel (self m1) = kernel (self m) /\
                  camera_index (self m1) = camera_index (self m) /\
                  width (self m1) = width (self m) /\
                  height (self m1) = height (self m)).
  { intros H.
    apply lazy_read_any in H
      as [(-> & e & -> & _ & Hn)|(Hrep & _ & -> & ->)].
    - split; [intros H; contradiction|exact Hs].
    - split; [eauto|exact Hs]. }
  destruct (cap (self m)) as [c|]; [destruct (cv2.isOpened c)|];
    try exact Hlazy.
  rewrite io_run. intros H. injection H as <- <-. cbn. eauto 10.
Qed.

Lemma start_capture_last_frame m :
  last_frame (self (snd (start_capture m))) = last_frame (self m).
Proof.
  destruct (start_capture_any m) as (o' & m' & E & [->|(l & -> & _)] & _);
    rewrite E; reflexivity.
Qed.

Lemma start_capture_camera m :
  camera (world (snd (start_capture m))) = camera (world m).
Proof.
  destruct (start_capture_any m) as (o' & m' & E & [->|(l & -> & _)] & _);
    rewrite E; reflexivity.
Qed.

Lemma read_nonempty c w f :
  fst (cv2.read c w) = Some f -> cv2.empty f = false.
Proof.
  unfold cv2.read. destruct (cv2.opened c); [|discriminate].
  destruct (camera w (cv2.device c)) as [[|[image|] rest]|]; cbn [fst];
    try discriminate.
  destruct (cv2.empty image) eqn:E; [discriminate|].
  intros H. injection H as <-. exact E.
Qed.

(** A frame that was read is not empty. *)
Lemma get_motion_read_nonempty m f m1 :
  get_motion_read m = (Return (Some f), m1) -> cv2.empty f = false.
Proof.
  rewrite get_motion_read_run.
  assert (Hlazy : lazy_read m = (Return (Some f), m1) -> cv2.empty f = false).
  { intros H.
    apply lazy_read_any in H as [(_ & e & H & _)|(_ & _ & H & _)];
      [discriminate H|].
    injection H as H. symmetry in H. now apply read_nonempty in H. }
  destruct (cap (self m)) as [c|]; [destruct (cv2.isOpened c)|];
    try exact Hlazy.
  rewrite io_run. intros H. injection H as H _. now apply read_nonempty in H.
Qed.

Lemma truediv_amount mask a :
  truediv (Z.of_nat (count_nonzero mask) * 100) (Z.of_nat (size mask)) = Return a ->
  a = amount_of mask /\ (0 < size mask)%nat.
Proof.
  unfold truediv, amount_of.
  destruct (Z.eqb_spec (Z.of_nat (size mask)) 0); [discriminate|].
  intros H. injection H as <-. split; [reflexivity|lia].
Qed.

(** Every way in which [get_motion] returns. *)
Lemma get_motion_inv m r m' :
  get_motion m = (Return r, m') ->
  (get_motion_read m = (Return None, m') /\ r = (None, None, 0%Q)) \/
  (exists f m1 p,
      get_motion_read m = (Return (Some f), m1) /\
      fst (_apply_kernel f None m1) = Return p /\
      m' = store p m1 /\
      ((last_frame (self m) = None /\ r = (Some f, Some (zeros_like p), 0%Q)) \/
       (exists last d,
           last_frame (self m) = Some last /\
           cv2.absdiff p last = Return d /\
           (0 < size (motion_mask d))%nat /\
           r = (Some f, Some (motion_mask d), amount_of (motion_mask d))))).
Proof.
  rewrite get_motion_unfold.
  destruct (get_motion_read m) as [[[f|]|e] m1] eqn:Er; try discriminate.
  - apply get_motion_read_frame in Er as (_ & Hl & _).
    destruct (fst (_apply_kernel f None m1)) as [p|e] eqn:Ep; [|discriminate].
    rewrite Hl. destruct (last_frame (self m)) as [last|].
    + destruct (cv2.absdiff p last) as [d|e] eqn:Ed; [|discriminate].
      cbv zeta. fold (motion_mask d).
      destruct (truediv _ _) as [a|e] eqn:Ea; [|discriminate].
      apply truediv_amount in Ea as [-> Hs].
      intros H. injection H as <- <-. right. exists f, m1, p.
      split; [reflexivity|]. split; [exact Ep|]. split; [reflexivity|].
      right. exists last, d. auto.
    + intros H. injection H as <- <-. right. exists f, m1, p.
      split; [reflexivity|]. split; [exact Ep|]. split; [reflexivity|].
      left. split; reflexivity.
  - intros H. injection H as <- <-. left. split; reflexivity.
Qed.

(** [get_motion] returns whenever the kernel is non-empty and the previous
    frame, if any, has the shape of the frame read. *)
Lemma get_motion_returns m f m1 :
  get_motion_read m = (Return (Some f), m1) ->
  cv2.empty (kernel (self m)) = false ->
  (forall last, last_frame (self m) = Some last -> shape last = shape f) ->
  exists r m', get_motion m = (Return r, m').
Proof.
  intros Er Hk Hl. pose proof (get_motion_read_nonempty _ _ _ Er) as Hf.
  rewrite get_motion_unfold, Er.
  apply get_motion_read_frame in Er as (_ & El & Ek & _).
  rewrite <- Ek in Hk.
  destruct (apply_kernel_returns f m1 Hf Hk) as [p Ep]. rewrite Ep.
  apply apply_kernel_shape in Ep as (Hs & Hw & _).
  rewrite El. destruct (last_frame (self m)) as [last|]; [|eauto].
  destruct (absdiff_returns p last) as [d Ed]; [rewrite Hs; auto|].
  rewrite Ed. cbv zeta. fold (motion_mask d).
  apply absdiff_shape in Ed as (Hd & _).
  unfold truediv.
  assert (Hsz : size (motion_mask d) = size f).
  { unfold size, motion_mask, cv2.threshold, shape in *. cbn [snd nrows ncols].
    congruence. }
  destruct (Z.eqb_spec (Z.of_nat (size (motion_mask d))) 0) as [E|]; [|eauto].
  exfalso. rewrite Hsz in E. unfold cv2.empty, size in *.
  destruct (nrows f), (ncols f); cbn in *; try discriminate; lia.
Qed.

Lemma zeros_like_spec (p : Image) :
  shape (zeros_like p) = shape p /\ well_formed (zeros_like p) /\
  Forall (fun v => v = 0) (data (zeros_like p)) /\
  count_nonzero (zeros_like p) = 0%nat.
Proof.
  unfold zeros_like, shape, well_formed, size, count_nonzero.
  cbn [nrows ncols data]. repeat split.
  - apply repeat_length.
  - apply Forall_forall. intros v Hv. now apply repeat_spec in Hv.
  - induction (nrows p * ncols p)%nat; cbn; auto.
Qed.

(** The mask is 255 exactly where the difference exceeds 30. *)
Lemma motion_mask_item d y x :
  item 0 (motion_mask d) y x = if 30 <? item 0 d y x then 255 else 0.
Proof.
  unfold motion_mask, cv2.threshold, item. cbn [snd data ncols].
  pose proof (map_nth (fun v => if v >? 30 then cv2.saturate_u8 255 else 0)
                (data d) 0 (y * ncols d + x)) as H.
  cbn beta in H. change (0 >? 30) with false in H. cbv iota in H.
  rewrite H, Z.gtb_ltb. reflexivity.
Qed.

Lemma motion_mask_size d : size (motion_mask d) = size d.
Proof. reflexivity. Qed.

Lemma absdiff_self p :
  exists d,
    cv2.absdiff p p = Return d /\ shape d = shape p /\
    Forall (fun v => v = 0) (data d) /\
    length (data d) = length (data p).
Proof.
  unfold cv2.absdiff. rewrite !Nat.eqb_refl. cbn [andb].
  eexists. split; [reflexivity|]. cbn [data]. split; [reflexivity|].
  induction (data p) as [|v l IH]; cbn [combine map length].
  - auto.
  - destruct IH as [IH1 IH2]. split; [|now rewrite IH2].
    constructor; [|exact IH1]. cbn [fst snd]. rewrite Z.sub_diag. reflexivity.
Qed.

Lemma motion_mask_zero d :
  Forall (fun v => v = 0) (data d) ->
  Forall (fun v => v = 0) (data (motion_mask d)) /\
  count_nonzero (motion_mask d) = 0%nat.
Proof.
  unfold motion_mask, cv2.threshold, count_nonzero. cbn [snd data].
  induction 1 as [|v l Hv _ [IH1 IH2]]; cbn [map filter]; [auto|].
  subst v. cbn. auto.
Qed.

Lemma nonempty_size {A} (f : ndarray A) :
  cv2.empty f = false -> Z.of_nat (size f) <> 0.
Proof.
  unfold cv2.empty, size.
  destruct (nrows f), (ncols f); cbn; intros H; try discriminate; lia.
Qed.

(** ** The methods, run *)

Lemma stop_capture_run m :
  stop_capture m =
    (Return tt,
     mk_Machine
       (mk_MotionCamera (camera_index (self m)) (width (self m))
          (height (self m)) None None (kernel (self m)))
       (match cap (self m) with
        | Some c => cv2.log (CallRelease (cv2.device c)) (world m)
        | None => world m
        end)).
Proof.
  unfold stop_capture. unfold bind at 1, get_self at 1.
  destruct (cap (self m)) as [c|] eqn:Ec; run; rewrite ?Ec; reflexivity.
Qed.

Lemma read_closed c w :
  cv2.opened c = false ->
  cv2.read c w = (None, cv2.log (CallRead (cv2.device c)) w).
Proof. unfold cv2.read. now intros ->. Qed.

Lemma read_calls c w :
  calls (snd (cv2.read c w)) = calls w ++ [CallRead (cv2.device c)].
Proof.
  unfold cv2.read. destruct (cv2.opened c); [|reflexivity].
  destruct (camera w (cv2.device c)) as [[|r rest]|]; reflexivity.
Qed.

(** After [get_motion] the world and the capture object are those its read
    left. *)
Lemma get_motion_world m :
  world (snd (get_motion m)) = world (snd (get_motion_read m)) /\
  cap (self (snd (get_motion m))) = cap (self (snd (get_motion_read m))).
Proof.
  rewrite get_motion_unfold.
  destruct (get_motion_read m) as [[[f|]|e] m1]; auto.
  destruct (fst (_apply_kernel f None m1)); auto.
  destruct (last_frame (self m1)); auto.
  destruct (cv2.absdiff _ _); auto. cbv zeta.
  destruct (truediv _ _); auto.
Qed.

(** ** No exception on a steady camera *)

Lemma read_steady sh c w :
  steady sh w ->
  steady sh (snd (cv2.read c w)) /\
  forall f, fst (cv2.read c w) = Some f -> shape f = sh.
Proof.
  intros Hw. unfold cv2.read.
  destruct (cv2.opened c); [|split; [exact Hw|discriminate]].
  destruct (camera w (cv2.device c)) as [[|r rest]|] eqn:Ec;
    try (split; [exact Hw|discriminate]).
  cbn [fst snd]. split.
  - intros i feed f. cbn [camera].
    destruct (Z.eqb_spec i (cv2.device c)) as [->|_].
    + intros H Hin. injection H as <-.
      apply (Hw _ _ f Ec). now right.
    + apply Hw.
  - intros f Hf. apply (Hw _ _ f Ec). left.
    destruct r as [image|]; [|discriminate].
    destruct (cv2.empty image); [discriminate|]. exact Hf.
Qed.

Lemma steady_camera sh w w' :
  camera w' = camera w -> steady sh w -> steady sh w'.
Proof. unfold steady. intros E H i feed f. rewrite E. apply H. Qed.

Lemma get_motion_read_steady sh m o m1 :
  get_motion_read m = (o, m1) ->
  steady sh (world m) ->
  steady sh (world m1) /\
  forall f, o = Return (Some f) -> shape f = sh.
Proof.
  rewrite get_motion_read_run. intros H Hw.
  assert (Hs : steady sh (world (snd (start_capture m)))).
  { apply (steady_camera sh (world m)); [apply start_capture_camera|exact Hw]. }
  assert (Hlazy : lazy_read m = (o, m1) ->
                  steady sh (world m1) /\
                  forall f, o = Return (Some f) -> shape f = sh).
  { intros Hl.
    apply lazy_read_any in Hl as [(-> & e & -> & _)|(_ & _ & -> & ->)].
    - split; [exact Hs|discriminate].
    - cbn [world]. split; [now apply read_steady|].
      intros f Hf. injection Hf as Hf. revert Hf. now apply read_steady. }
  destruct (cap (self m)) as [c|]; [destruct (cv2.isOpened c)|]; auto.
  rewrite io_run in H. injection H as <- <-. cbn [world].
  split; [now apply read_steady|].
  intros f Hf. injection Hf as Hf. revert Hf. now apply read_steady.
Qed.

Lemma box_kernel_nonempty : cv2.empty box_kernel = false.
Proof. reflexivity. Qed.

(** On settled machines [get_motion] returns, and leaves the machine
    settled. *)
Lemma get_motion_settled sh m :
  settled sh m ->
  exists r m', get_motion m = (Return r, m') /\ settled sh m'.
Proof.
  intros (Hrep & Hk & Hw & Hl).
  destruct (get_motion_read m) as [o m1] eqn:Er.
  destruct (get_motion_read_frame _ _ _ Er) as (Hret & El & Ek & Ei & Ewd & Eht).
  destruct (Hret Hrep) as [r ->].
  destruct (get_motion_read_steady sh _ _ _ Er Hw) as (Hw1 & Hsh).
  assert (Hrep1 : representable (self m1)).
  { unfold representable in *. now rewrite Ei, Ewd, Eht. }
  destruct r as [f|].
  - specialize (Hsh f eq_refl).
    destruct (get_motion_returns m f m1 Er) as (r & m' & E).
    + rewrite Hk. apply box_kernel_nonempty.
    + intros last Hlast. rewrite Hsh. now apply Hl.
    + exists r, m'. split; [exact E|].
      apply get_motion_inv in E as [[Hn _]|(f' & m1' & p & Er' & Ep & -> & _)];
        [congruence|].
      rewrite Er in Er'. injection Er' as <- <-.
      apply apply_kernel_shape in Ep as (Hp & _).
      split; [exact Hrep1|].
      repeat split; cbn [store set_last_frame snd self world kernel last_frame].
      * congruence.
      * exact Hw1.
      * intros last H. injection H as <-. congruence.
  - exists (None, None, 0%Q), m1. split.
    + rewrite get_motion_unfold, Er. reflexivity.
    + split; [exact Hrep1|].
      repeat split; [congruence|exact Hw1|]. rewrite El. exact Hl.
Qed.

Lemma reachable_settled sh index width height w0 m :
  representable (__init__ index width height) ->
  steady sh w0 -> reachable index width height w0 m -> settled sh m.
Proof.
  intros Hrep Hw.
  induction 1 as [|m _ (Hr & Hk & Hs & Hl)|m _ (Hr & Hk & Hs & Hl)|m _ IH].
  - split; [exact Hrep|]. repeat split; [exact Hw|discriminate].
  - rewrite start_capture_ok by exact Hr. split; [exact Hr|].
    repeat split; assumption.
  - rewrite stop_capture_run. split; [exact Hr|].
    repeat split; cbn [snd self world kernel last_frame].
    + exact Hk.
    + destruct (cap (self m)); exact Hs.
    + discriminate.
  - destruct (get_motion_settled sh m IH) as (r & m' & E & H'). now rewrite E.
Qed.

(** X8: from a newly constructed object with a representable configuration
    (the camera index a C [int], the width and the height convertible to
    [double]), on cameras that deliver frames of one shape, no sequence of
    method calls makes [get_motion] raise. *)
Theorem get_motion_never_raises sh index width height w0 m :
  representable (__init__ index width height) ->
  steady sh w0 -> reachable index width height w0 m ->
  exists r m', get_motion m = (Return r, m').
Proof.
  intros Hrep Hw Hm.
  destruct (get_motion_settled sh m
              (reachable_settled _ _ _ _ _ _ Hrep Hw Hm))
    as (r & m' & E & _).
  eauto.
Qed.

(** ** Exceptions *)

Lemma apply_kernel_any f karg m :
  _apply_kernel f karg m =
    (match cv2.cvtColor f cv2.COLOR_BGR2GRAY with
     | Return g => cv2.filter2D g (kernel_used karg m)
     | Raise e => Raise e
     end, m).
Proof.
  unfold _apply_kernel, kernel_used.
  cbv [bind ret get_self lift]. 
  destruct (cv2.cvtColor f cv2.COLOR_BGR2GRAY); reflexivity.
Qed.

Lemma saturate_u8_range v : is_u8 (cv2.saturate_u8 v).
Proof. unfold is_u8, cv2.saturate_u8. lia. Qed.

Lemma tabulate_Forall {A} (P : A -> Prop) h w f :
  (forall y x, P (f y x)) -> Forall P (data (tabulate h w f)).
Proof.
  intros H. unfold tabulate. cbn [data]. apply Forall_forall.
  intros a Ha. apply in_map_iff in Ha as (i & <- & _). apply H.
Qed.

(** The outcome of [_apply_kernel]. *)
Lemma apply_kernel_result f karg m :
  snd (_apply_kernel f karg m) = m /\
  (fst (_apply_kernel f karg m) = Raise cv2_error <->
   cv2.empty f = true \/ cv2.empty (kernel_used karg m) = true) /\
  (cv2.empty f = false -> cv2.empty (kernel_used karg m) = false ->
   exists p,
     fst (_apply_kernel f karg m) = Return p /\
     shape p = shape f /\ well_formed p /\ Forall is_u8 (data p)).
Proof.
  rewrite apply_kernel_any. cbn [fst snd]. split; [reflexivity|].
  unfold cv2.cvtColor, cv2.filter2D.
  destruct (cv2.empty f) eqn:Ef.
  - split; [tauto|discriminate].
  - destruct (cv2.empty (kernel_used karg m)) eqn:Ek.
    + split; [tauto|discriminate].
    + split.
      * split; [discriminate|intros [H|H]; discriminate].
      * intros _ _. eexists. split; [reflexivity|].
        split; [reflexivity|]. split; [apply tabulate_well_formed|].
        apply tabulate_Forall. intros. apply saturate_u8_range.
Qed.

Lemma absdiff_raises p last :
  cv2.absdiff p last = Raise cv2_error <-> shape last <> shape p.
Proof.
  unfold cv2.absdiff, shape.
  destruct (Nat.eqb_spec (nrows p) (nrows last)) as [Hr|Hr];
    destruct (Nat.eqb_spec (ncols p) (ncols last)) as [Hc|Hc]; cbn [andb];
    split; try discriminate; try reflexivity; try congruence;
    intros H; exfalso; apply H; congruence.
Qed.

Lemma get_motion_read_raises m e m1 :
  get_motion_read m = (Raise e, m1) <->
  not_capturing m /\ start_capture m = (Raise e, m1).
Proof.
  rewrite get_motion_read_run. unfold not_capturing. split.
  - assert (Hlazy : lazy_read m = (Raise e, m1) ->
                    start_capture m = (Raise e, m1)).
    { unfold lazy_read. destruct (start_capture m) as [[u|e0] m0].
      - rewrite io_run. discriminate.
      - intros H. injection H as -> ->. reflexivity. }
    destruct (cap (self m)) as [c|]; [destruct (cv2.isOpened c) eqn:Eo|].
    + rewrite io_run. discriminate.
    + intros H. split; [right; eauto|auto].
    + intros H. split; [now left|auto].
  - intros [[->|(c & -> & ->)] H]; unfold lazy_read; now rewrite H.
Qed.

Lemma start_capture_raises m e m' :
  start_capture m = (Raise e, m') ->
  (e = cv2_error /\ cv2.fits_int (camera_index (self m)) = false) \/
  (e = OverflowError /\ cv2.fits_int (camera_index (self m)) = true /\
   (cv2.fits_double (width (self m)) = false \/
    cv2.fits_double (height (self m)) = false)).
Proof.
  rewrite start_capture_run.
  destruct (cv2.fits_int (camera_index (self m)));
    [destruct (cv2.fits_double (width (self m)));
     [destruct (cv2.fits_double (height (self m)))|]|];
    intros H; try discriminate H; injection H as <- <-; auto.
Qed.

(** The exceptions of [get_motion]: that of a lazy start the binding
    refuses, or [cv2.error] from the filter on an empty kernel or from
    [absdiff] on a previous frame of another shape; the previous frame is
    then kept. *)
Lemma get_motion_raises m e m' :
  get_motion m = (Raise e, m') ->
  last_frame (self m') = last_frame (self m) /\
  ((not_capturing m /\ start_capture m = (Raise e, m')) \/
   (e = cv2_error /\
    exists f,
      get_motion_read m = (Return (Some f), m') /\
      (cv2.empty (kernel (self m)) = true \/
       exists last, last_frame (self m) = Some last /\ shape last <> shape f))).
Proof.
  rewrite get_motion_unfold.
  destruct (get_motion_read m) as [[[f|]|e0] m1] eqn:Er.
  - pose proof (get_motion_read_nonempty _ _ _ Er) as Hf.
    pose proof (get_motion_read_frame _ _ _ Er) as (_ & Hl & Hk & _).
    destruct (apply_kernel_result f None m1) as (_ & Hraise & Hret).
    cbn [kernel_used] in *.
    destruct (cv2.empty (kernel (self m1))) eqn:Ek.
    + destruct Hraise as [_ ->]; [|now right].
      intros H. injection H as <- <-. rewrite <- Hk.
      split; [exact Hl|]. right. eauto 8.
    + destruct (Hret Hf eq_refl) as (p & -> & Hs & _).
      rewrite Hl. destruct (last_frame (self m)) as [last|]; [|discriminate].
      destruct (cv2.absdiff p last) as [d|e1] eqn:Ed.
      * cbv zeta. unfold truediv.
        apply absdiff_shape in Ed as (Hd & _).
        assert (Hsz : size (snd (cv2.threshold d 30 255 cv2.THRESH_BINARY))
                      = size f).
        { unfold size, cv2.threshold, shape in *. cbn [snd nrows ncols].
          congruence. }
        rewrite Hsz.
        destruct (Z.eqb_spec (Z.of_nat (size f)) 0) as [E|E]; [|discriminate].
        now apply nonempty_size in Hf.
      * intros H. injection H as <- <-.
        assert (e1 = cv2_error) as ->.
        { unfold cv2.absdiff in Ed. destruct (_ && _)%bool; congruence. }
        apply absdiff_raises in Ed.
        split; [exact Hl|]. right. split; [reflexivity|].
        exists f. split; [reflexivity|]. right. exists last.
        split; [reflexivity|]. congruence.
  - discriminate.
  - intros H. injection H as <- <-.
    pose proof (get_motion_read_frame _ _ _ Er) as (_ & Hl & _).
    split; [exact Hl|]. left. now apply get_motion_read_raises.
Qed.

Lemma get_motion_raises_when m f m1 :
  get_motion_read m = (Return (Some f), m1) ->
  (cv2.empty (kernel (self m)) = true \/
   exists last, last_frame (self m) = Some last /\ shape last <> shape f) ->
  get_motion m = (Raise cv2_error, m1).
Proof.
  intros Er H. rewrite get_motion_unfold, Er.
  pose proof (get_motion_read_nonempty _ _ _ Er) as Hf.
  pose proof (get_motion_read_frame _ _ _ Er) as (_ & Hl & Hk & _).
  destruct (apply_kernel_result f None m1) as (_ & Hraise & Hret).
  cbn [kernel_used] in *. rewrite Hk in *.
  destruct (cv2.empty (kernel (self m))) eqn:Ek.
  - destruct Hraise as [_ ->]; [reflexivity|now right].
  - destruct H as [H|(last & Hlast & Hs)]; [discriminate|].
    destruct (Hret Hf eq_refl) as (p & -> & Hp & _).
    rewrite Hl, Hlast.
    assert (Ed : cv2.absdiff p last = Raise cv2_error).
    { apply absdiff_raises. congruence. }
    rewrite Ed. reflexivity.
Qed.

(** * The claims on [get_motion], [start_capture] and [stop_capture] *)

(** C2: when the read of a call fails, [get_motion] returns
    [(None, None, 0)]; it does not raise, and nothing but the read has
    touched the machine. *)
Theorem get_motion_read_failure m m1 :
  get_motion_read m = (Return None, m1) ->
  get_motion m = (Return (None, None, 0%Q), m1).
Proof. intros H. rewrite get_motion_unfold, H. reflexivity. Qed.

Lemma get_motion_read_failure_witness :
  get_motion (fresh []) =
    (Return (None, None, 0%Q), snd (get_motion_read (fresh []))).
Proof. apply get_motion_read_failure. reflexivity. Defined.



(** C3: the mask [get_motion] returns is 0 where the absolute difference of
    the processed frame and the previous one is exactly 30, and 255 where
    it is 31: a pixel is marked exactly when its difference is strictly
    greater than 30. *)
Theorem get_motion_threshold_boundary m f m1 prev r m' :
  get_motion_read m = (Return (Some f), m1) ->
  last_frame (self m) = Some prev ->
  get_motion m = (Return r, m') ->
  exists p d mask,
    fst (_apply_kernel f None m1) = Return p /\
    cv2.absdiff p prev = Return d /\
    snd (fst r) = Some mask /\
    shape mask = shape d /\
    forall y x,
      (item 0 d y x = 30 -> item 0 mask y x = 0) /\
      (item 0 d y x = 31 -> item 0 mask y x = 255) /\
      (item 0 mask y x = 255 <-> 30 < item 0 d y x) /\
      (item 0 mask y x = 0 <-> item 0 d y x <= 30).
Proof.
  intros Er Hl H.
  apply get_motion_inv in H as [[Hn _]|(f' & m1' & p & Er' & Ep & _ & H)].
  - congruence.
  - rewrite Er in Er'. injection Er' as <- <-.
    destruct H as [[Hn _]|(last & d & Hl' & Ed & _ & ->)]; [congruence|].
    rewrite Hl in Hl'. injection Hl' as <-.
    exists p, d, (motion_mask d).
    split; [exact Ep|]. split; [exact Ed|]. split; [reflexivity|].
    split; [reflexivity|].
    intros y x. rewrite motion_mask_item.
    destruct (Z.ltb_spec 30 (item 0 d y x)); repeat split; intros;
      try lia; try discriminate.
Qed.

Lemma get_motion_threshold_boundary_witness :
  exists d mask,
    cv2.absdiff (mk_ndarray 2 2 [130; 130; 130; 130])
      (mk_ndarray 2 2 [100; 100; 100; 100]) = Return d /\
    item 0 d 0 0 = 30 /\ item 0 mask 0 0 = 0.
Proof.
  destruct (get_motion_threshold_boundary
              (after_first_call [Some (flat 100); Some (flat 130)])
              (flat 130)
              (snd (get_motion_read
                      (after_first_call [Some (flat 100); Some (flat 130)])))
              (mk_ndarray 2 2 [100; 100; 100; 100])
              (Some (flat 130), Some (mk_ndarray 2 2 [0; 0; 0; 0]), (0 # 4)%Q)
              (snd (get_motion
                      (after_first_call [Some (flat 100); Some (flat 130)]))))
    as (p & d & mask & Ep & Ed & _ & _ & Hb); [vm_compute; reflexivity ..|].
  vm_compute in Ep. injection Ep as <-.
  exists d, mask. split; [exact Ed|].
  vm_compute in Ed. injection Ed as <-.
  split; [reflexivity|]. apply (Hb 0%nat 0%nat). reflexivity.
Defined.

(** The same two frames one gray level further apart: every pixel differs
    by 31 and is marked. *)
Example threshold_at_31 :
  fst (get_motion (after_first_call [Some (flat 100); Some (flat 131)])) =
    Return (Some (flat 131), Some (mk_ndarray 2 2 [255; 255; 255; 255]),
            (400 # 4)%Q).
Proof. vm_compute. reflexivity. Qed.

(** C4: when the read succeeds and there is no previous processed frame,
    whatever the frame shows the amount returned is 0 and the mask is the
    all-zero image of the shape of the processed frame; and the call does
    return (the kernel not being empty). *)
Theorem get_motion_first_frame m f m1 :
  get_motion_read m = (Return (Some f), m1) ->
  last_frame (self m) = None ->
  (forall r m', get_motion m = (Return r, m') ->
     exists p,
       fst (_apply_kernel f None m1) = Return p /\
       r = (Some f, Some (zeros_like p), 0%Q) /\
       shape (zeros_like p) = shape p /\
       Forall (fun v => v = 0) (data (zeros_like p))) /\
  (cv2.empty (kernel (self m)) = false ->
   exists r m', get_motion m = (Return r, m')).
Proof.
  intros Er Hl. split.
  - intros r m' H.
    apply get_motion_inv in H as [[Hn _]|(f' & m1' & p & Er' & Ep & _ & H)].
    + congruence.
    + rewrite Er in Er'. injection Er' as <- <-.
      destruct H as [[_ ->]|(last & d & Hl' & _)]; [|congruence].
      exists p. split; [exact Ep|]. split; [reflexivity|].
      destruct (zeros_like_spec p) as (Hs & _ & Hz & _). auto.
  - intros Hk. eapply get_motion_returns; eauto.
    intros last Hl'. congruence.
Qed.

Lemma get_motion_first_frame_witness :
  exists r m',
    get_motion (fresh [Some (flat 200)]) = (Return r, m') /\
    exists p, r = (Some (flat 200), Some (zeros_like p), 0%Q).
Proof.
  destruct (get_motion_first_frame (fresh [Some (flat 200)]) (flat 200)
              (snd (get_motion_read (fresh [Some (flat 200)]))))
    as [Hzero Hreturns]; [vm_compute; reflexivity ..|].
  destruct Hreturns as (r & m' & E); [vm_compute; reflexivity ..|].
  exists r, m'. split; [exact E|].
  destruct (Hzero r m' E) as (p & _ & Hr & _). exists p. exact Hr.
Defined.

(** C7: the amount [get_motion] returns lies in [0, 100]. *)
Theorem get_motion_amount_range m r m' :
  get_motion m = (Return r, m') -> (0 <= snd r <= 100)%Q.
Proof.
  intros H.
  apply get_motion_inv in H as [[_ ->]|(f & m1 & p & _ & Ep & _ & H)].
  - cbn. split; discriminate.
  - destruct H as [[_ ->]|(last & d & _ & Ed & Hs & ->)].
    + cbn. split; discriminate.
    + cbn [snd]. unfold amount_of.
      assert (Hc : (count_nonzero (motion_mask d) <= size (motion_mask d))%nat).
      { etransitivity; [apply count_nonzero_le_length|].
        apply apply_kernel_shape in Ep as (_ & Hw & _).
        apply absdiff_shape in Ed as (Hd & _ & Hlen).
        unfold motion_mask, cv2.threshold, size. cbn [snd data nrows ncols].
        rewrite length_map. unfold well_formed, size, shape in *.
        injection Hd as -> ->. lia. }
      set (c := count_nonzero (motion_mask d)) in *.
      set (s := size (motion_mask d)) in *.
      assert (Hpos : (0 < inject_Z (Z.of_nat s))%Q).
      { change 0%Q with (inject_Z 0). rewrite <- Zlt_Qlt. lia. }
      split.
      * apply Qle_shift_div_l; [exact Hpos|]. rewrite Qmult_0_l.
        change 0%Q with (inject_Z 0). rewrite <- Zle_Qle. lia.
      * apply Qle_shift_div_r; [exact Hpos|].
        change 100%Q with (inject_Z 100).
        rewrite <- inject_Z_mult, <- Zle_Qle. lia.
Qed.

Lemma get_motion_amount_range_witness : (0 <= 400 # 4 <= 100)%Q.
Proof.
  exact (get_motion_amount_range
           (after_first_call [Some (flat 100); Some (flat 131)])
           (Some (flat 131), Some (mk_ndarray 2 2 [255; 255; 255; 255]),
            (400 # 4)%Q)
           (snd (get_motion
                   (after_first_call [Some (flat 100); Some (flat 131)])))
           ltac:(vm_compute; reflexivity)).
Defined.

(** C10, as amended: [get_motion] replaces the previous-frame buffer
    exactly when its read succeeds and the call returns.  A call whose read
    fails returns with the buffer unchanged.  A call whose read succeeds
    and which returns leaves the newly processed image in the buffer,
    whether or not there was a frame to compare with; it returns when the
    kernel is not empty and the frame has the shape of the buffer, and it
    raises [cv2.error], the buffer unchanged, when the kernel is empty or
    the buffer holds an image of another shape.  No call that raises
    changes the buffer.  Hence the first successful call after a failed one
    is compared with the frame processed before the failure. *)
Theorem get_motion_updates_last_frame m :
  (forall m1, get_motion_read m = (Return None, m1) ->
     get_motion m = (Return (None, None, 0%Q), m1) /\
     last_frame (self m1) = last_frame (self m)) /\
  (forall f m1,
     get_motion_read m = (Return (Some f), m1) ->
     (forall r m', get_motion m = (Return r, m') ->
        exists p,
          fst (_apply_kernel f None m1) = Return p /\
          last_frame (self m') = Some p) /\
     (cv2.empty (kernel (self m)) = false ->
      (forall last, last_frame (self m) = Some last -> shape last = shape f) ->
      exists r m', get_motion m = (Return r, m')) /\
     (cv2.empty (kernel (self m)) = true \/
      (exists last,
         last_frame (self m) = Some last /\ shape last <> shape f) ->
      get_motion m = (Raise cv2_error, m1) /\
      last_frame (self m1) = last_frame (self m))) /\
  (forall e m', get_motion m = (Raise e, m') ->
     last_frame (self m') = last_frame (self m)) /\
  (forall prev m1 f m2 r m3,
     last_frame (self m) = Some prev ->
     get_motion_read m = (Return None, m1) ->
     get_motion_read m1 = (Return (Some f), m2) ->
     get_motion m1 = (Return r, m3) ->
     exists p d,
       fst (_apply_kernel f None m2) = Return p /\
       cv2.absdiff p prev = Return d /\
       r = (Some f, Some (motion_mask d), amount_of (motion_mask d))).
Proof.
  split; [|split; [|split]].
  - intros m1 Er. split.
    + rewrite get_motion_unfold, Er. reflexivity.
    + now apply get_motion_read_frame in Er.
  - intros f m1 Er. split; [|split].
    + intros r m' H.
      apply get_motion_inv in H as [[Hn _]|(f' & m1' & p & Er' & Ep & -> & _)].
      * congruence.
      * rewrite Er in Er'. injection Er' as <- <-. exists p.
        split; [exact Ep|reflexivity].
    + intros Hk Hs. eapply get_motion_returns; eauto.
    + intros H. split; [now apply (get_motion_raises_when m f m1)|].
      now apply get_motion_read_frame in Er.
  - intros e m' H. now apply get_motion_raises in H.
  - intros prev m1 f m2 r m3 Hl Ef Er H.
    apply get_motion_read_frame in Ef as (_ & Hl1 & _).
    apply get_motion_inv in H as [[Hn _]|(f' & m1' & p & Er' & Ep & _ & H)].
    + congruence.
    + rewrite Er in Er'. injection Er' as <- <-.
      destruct H as [[Hn _]|(last & d & Hl' & Ed & _ & ->)]; [congruence|].
      exists p, d. split; [exact Ep|]. split; [congruence|reflexivity].
Qed.

Lemma get_motion_updates_last_frame_witness :
  last_frame
    (self (snd (get_motion_read
                  (after_first_call [Some (flat 100); None; Some (flat 140)]))))
  = Some (mk_ndarray 2 2 [100; 100; 100; 100]).
Proof.
  destruct (get_motion_updates_last_frame
              (after_first_call [Some (flat 100); None; Some (flat 140)]))
    as (Hfail & _ & _).
  destruct (Hfail
              (snd (get_motion_read
                      (after_first_call
                         [Some (flat 100); None; Some (flat 140)])))
              ltac:(vm_compute; reflexivity)) as [_ Hl].
  rewrite Hl. vm_compute. reflexivity.
Defined.

(** A frame, a failed read, a frame: the third call compares with the
    first. *)
Example compared_across_a_failed_read :
  fst (get_motion
         (snd (get_motion
                 (after_first_call
                    [Some (flat 100); None; Some (flat 140)])))) =
    Return (Some (flat 140), Some (mk_ndarray 2 2 [255; 255; 255; 255]),
            (400 # 4)%Q).
Proof. vm_compute. reflexivity. Qed.

(** C10 as stated fails: after a 2x2 frame the read of a 1x1 frame
    succeeds and the frame is processed, yet [absdiff] raises [cv2.error]
    before the assignment and the buffer still holds the 2x2 image, not
    the newly processed one. *)
Lemma get_motion_updates_last_frame_counterexample :
  fst (get_motion_read
         (after_first_call [Some (flat 100); Some (gray_frame 1 1 [5])])) =
    Return (Some (gray_frame 1 1 [5])) /\
  fst (_apply_kernel (gray_frame 1 1 [5]) None
         (snd (get_motion_read
                 (after_first_call
                    [Some (flat 100); Some (gray_frame 1 1 [5])])))) =
    Return (mk_ndarray 1 1 [5]) /\
  fst (get_motion
         (after_first_call [Some (flat 100); Some (gray_frame 1 1 [5])])) =
    Raise cv2_error /\
  last_frame
    (self (snd (get_motion
                  (after_first_call
                     [Some (flat 100); Some (gray_frame 1 1 [5])])))) =
    Some (mk_ndarray 2 2 [100; 100; 100; 100]) /\
  Some (mk_ndarray 2 2 [100; 100; 100; 100]) <> Some (mk_ndarray 1 1 [5]).
Proof.
  split; [vm_compute; reflexivity|].
  split; [vm_compute; reflexivity|].
  split; [vm_compute; reflexivity|].
  split; [vm_compute; reflexivity|].
  intros H. discriminate H.
Qed.

(** C6: [stop_capture] returns in every state.  It releases the capture
    when one is held and makes no call on the device otherwise, and it
    leaves the object as constructed: no capture, no previous frame.  The
    next [get_motion], with or without an explicit [start_capture] first,
    therefore returns amount 0, like the very first call. *)
Theorem stop_capture_resets m :
  exists m',
    stop_capture m = (Return tt, m') /\
    self m' =
      mk_MotionCamera (camera_index (self m)) (width (self m))
        (height (self m)) None None (kernel (self m)) /\
    (kernel (self m) = box_kernel ->
     self m' =
       __init__ (camera_index (self m)) (width (self m)) (height (self m))) /\
    camera (world m') = camera (world m) /\
    calls (world m') =
      calls (world m) ++
      match cap (self m) with
      | Some c => [CallRelease (cv2.device c)]
      | None => []
      end /\
    (forall r m'', get_motion m' = (Return r, m'') -> snd r = 0%Q) /\
    (forall r m'',
        get_motion (snd (start_capture m')) = (Return r, m'') -> snd r = 0%Q).
Proof.
  eexists. split; [apply stop_capture_run|]. cbn [self world].
  split; [reflexivity|].
  split; [intros ->; reflexivity|].
  split; [destruct (cap (self m)); reflexivity|].
  split; [destruct (cap (self m)); cbn; now rewrite ?app_nil_r|].
  split; intros r m'' H.
  - apply get_motion_inv in H as [[_ ->]|(f & m1 & p & _ & _ & _ & H)];
      [reflexivity|].
    destruct H as [[_ ->]|(last & d & Hl & _)]; [reflexivity|discriminate].
  - apply get_motion_inv in H as [[_ ->]|(f & m1 & p & _ & _ & _ & H)];
      [reflexivity|].
    destruct H as [[_ ->]|(last & d & Hl & _)]; [reflexivity|].
    rewrite start_capture_last_frame in Hl. discriminate.
Qed.

Lemma stop_capture_resets_witness :
  self (snd (stop_capture (after_first_call [Some (flat 100)]))) =
    __init__ 0 640 480.
Proof.
  destruct (stop_capture_resets (after_first_call [Some (flat 100)]))
    as (m' & E & _ & Hinit & _).
  rewrite E. cbn [snd]. rewrite Hinit by reflexivity.
  vm_compute. reflexivity.
Defined.

(** Stopped and started again, the camera reports no motion on a frame
    that differs from the one seen before the stop. *)
Example first_call_after_restart :
  fst (get_motion
         (snd (stop_capture
                 (after_first_call [Some (flat 100); Some (flat 231)])))) =
    Return (Some (flat 231), Some (mk_ndarray 2 2 [0; 0; 0; 0]), 0%Q).
Proof. vm_compute. reflexivity. Qed.

(** C9: called with no capture object, or with one that is not open,
    [get_motion] performs [start_capture] first and reads only once it has
    returned, from the capture just acquired; when the binding refuses the
    configuration the exception of [start_capture] is that of
    [get_motion] and no read is attempted.  On a representable
    configuration the start opens the configured camera index and requests
    the configured width and height, the read follows, and calling
    [start_capture] first changes nothing in what [get_motion] returns. *)
Theorem get_motion_lazy_start m :
  (cap (self m) = None \/
   exists c, cap (self m) = Some c /\ cv2.isOpened c = false) ->
  let index := camera_index (self m) in
  let started := snd (start_capture m) in
  let acquired :=
    cv2.mk_VideoCapture index
      (match camera (world m) index with Some _ => true | None => false end) in
  get_motion_read m =
    match start_capture m with
    | (Return _, m1) => io (cv2.read acquired) m1
    | (Raise e, m1) => (Raise e, m1)
    end /\
  (forall e, fst (start_capture m) = Raise e ->
     get_motion m = (Raise e, started) /\
     ~ In (CallRead index)
         (skipn (length (calls (world m))) (calls (world started)))) /\
  (exists l,
     calls (world started) = calls (world m) ++ l /\
     (l = [] \/ l = [CallOpen index] \/
      l = [CallOpen index;
           CallSet index cv2.CAP_PROP_FRAME_WIDTH (width (self m))] \/
      l = [CallOpen index;
           CallSet index cv2.CAP_PROP_FRAME_WIDTH (width (self m));
           CallSet index cv2.CAP_PROP_FRAME_HEIGHT (height (self m))])) /\
  (representable (self m) ->
   calls (world started) =
     calls (world m) ++
     [CallOpen index;
      CallSet index cv2.CAP_PROP_FRAME_WIDTH (width (self m));
      CallSet index cv2.CAP_PROP_FRAME_HEIGHT (height (self m))] /\
   cap (self started) = Some acquired /\
   get_motion_read m = io (cv2.read acquired) started /\
   calls (world (snd (get_motion m))) =
     calls (world started) ++ [CallRead index] /\
   cap (self (snd (get_motion m))) = Some acquired /\
   fst (get_motion started) = fst (get_motion m)).
Proof.
  intros Hc index started acquired0.
  assert (Hlazy : get_motion_read m = lazy_read m).
  { rewrite get_motion_read_run.
    destruct Hc as [->|(c & -> & ->)]; reflexivity. }
  assert (Hcalls : exists l,
     calls (world started) = calls (world m) ++ l /\
     (l = [] \/ l = [CallOpen index] \/
      l = [CallOpen index;
           CallSet index cv2.CAP_PROP_FRAME_WIDTH (width (self m))] \/
      l = [CallOpen index;
           CallSet index cv2.CAP_PROP_FRAME_WIDTH (width (self m));
           CallSet index cv2.CAP_PROP_FRAME_HEIGHT (height (self m))])).
  { subst started. rewrite start_capture_run.
    destruct (cv2.fits_int (camera_index (self m)));
      [destruct (cv2.fits_double (width (self m)));
       [destruct (cv2.fits_double (height (self m)))|]|];
      cbn [snd started_with world calls].
    - eexists. split; [reflexivity|]. auto.
    - eexists. split; [reflexivity|]. auto.
    - eexists. split; [reflexivity|]. auto.
    - exists []. split; [now rewrite app_nil_r|]. auto. }
  split; [exact Hlazy|]. split; [|split; [exact Hcalls|]].
  - intros e He. split.
    + rewrite get_motion_unfold, Hlazy. unfold lazy_read. subst started.
      destruct (start_capture m) as [o m1]. cbn [fst snd] in *. now subst o.
    + clear Hcalls Hlazy. subst started. rewrite start_capture_run in *.
      destruct (cv2.fits_int (camera_index (self m)));
        [destruct (cv2.fits_double (width (self m)));
         [destruct (cv2.fits_double (height (self m)))|]|];
        cbn [fst snd started_with world calls] in *;
        try discriminate He;
        rewrite ?skipn_app, ?skipn_all, ?Nat.sub_diag; cbn [skipn app];
        intros Hin; cbn in Hin; intuition discriminate.
  - intros Hrep. subst started. rewrite start_capture_ok in * by exact Hrep.
    cbn [snd started_with self world calls cap] in *.
    fold index. fold (acquired m). change (acquired m) with acquired0.
    split; [reflexivity|]. split; [reflexivity|].
    assert (Hr : get_motion_read m =
                 io (cv2.read acquired0)
                   (started_with
                      [CallOpen index;
                       CallSet index cv2.CAP_PROP_FRAME_WIDTH (width (self m));
                       CallSet index cv2.CAP_PROP_FRAME_HEIGHT
                         (height (self m))] m)).
    { rewrite Hlazy. now apply lazy_read_ok. }
    split; [exact Hr|].
    destruct (get_motion_world m) as [-> ->]. rewrite Hr, io_run.
    cbn [snd self world cap started_with]. rewrite read_calls. cbn [calls].
    split; [reflexivity|]. split; [reflexivity|].
    set (started := started_with _ m) in *.
    assert (Hrep' : representable (self started)) by exact Hrep.
    destruct (cv2.opened acquired0) eqn:Eo.
    + assert (Hr' : get_motion_read started = get_motion_read m).
      { rewrite Hr, get_motion_read_run. subst started.
        cbn [self cap started_with]. change (acquired m) with acquired0.
        unfold cv2.isOpened. rewrite Eo. reflexivity. }
      rewrite !get_motion_unfold, Hr'. reflexivity.
    + rewrite !get_motion_unfold, Hr, get_motion_read_run.
      subst started. cbn [self cap started_with].
      change (acquired m) with acquired0.
      unfold cv2.isOpened. rewrite Eo.
      rewrite lazy_read_ok by exact Hrep'.
      change (acquired (started_with _ m)) with acquired0.
      rewrite !io_run, !read_closed by exact Eo. reflexivity.
Qed.

Lemma get_motion_lazy_start_witness :
  calls (world (snd (get_motion (fresh [Some (flat 100)])))) =
    [CallOpen 0; CallSet 0 3 640; CallSet 0 4 480; CallRead 0].
Proof.
  destruct (get_motion_lazy_start (fresh [Some (flat 100)])
              (or_introl eq_refl))
    as (_ & _ & _ & H).
  destruct H as (Hstart & _ & _ & Hread & _).
  - repeat split.
  - rewrite Hread, Hstart. reflexivity.
Defined.

(** A width that no [double] holds: the lazy start raises after the open,
    and no read is made. *)
Example lazy_start_refused :
  let m := mk_Machine (__init__ 0 (10 ^ 400) 480)
             (world_of 0 [Some (flat 100)]) in
  fst (get_motion m) = Raise OverflowError /\
  calls (world (snd (get_motion m))) = [CallOpen 0].
Proof. vm_compute. split; reflexivity. Qed.

(** A capture that is open is read at once. *)
Lemma get_motion_open_reads m c :
  cap (self m) = Some c -> cv2.isOpened c = true ->
  calls (world (snd (get_motion m))) =
    calls (world m) ++ [CallRead (cv2.device c)].
Proof.
  intros Hc Ho. destruct (get_motion_world m) as [-> _].
  rewrite get_motion_read_run, Hc, Ho, io_run. cbn [snd world].
  apply read_calls.
Qed.

(** C8: when two consecutive calls both read the same frame and the first
    returns, the second returns amount 0 and an all-zero mask of the shape
    of the frame. *)
Theorem get_motion_identical_frames m f m1 r1 m2 m3 :
  get_motion_read m = (Return (Some f), m1) ->
  get_motion m = (Return r1, m2) ->
  get_motion_read m2 = (Return (Some f), m3) ->
  exists mask a m4,
    get_motion m2 = (Return (Some f, Some mask, a), m4) /\
    (a == 0)%Q /\
    shape mask = shape f /\
    well_formed mask /\
    Forall (fun v => v = 0) (data mask).
Proof.
  intros Er H Er2.
  apply get_motion_inv in H as [[Hn _]|(f' & m1' & p & Er' & Ep & -> & _)];
    [congruence|].
  rewrite Er in Er'. injection Er' as <- <-.
  pose proof Er2 as Hf2.
  apply get_motion_read_frame in Hf2 as (_ & Hl & Hk & _).
  assert (Ep2 : fst (_apply_kernel f None m3) = Return p).
  { rewrite apply_kernel_run in *. cbn [fst] in *. rewrite Hk. exact Ep. }
  apply apply_kernel_shape in Ep as (Hs & Hw & Hf & _).
  destruct (absdiff_self p) as (d & Ed & Hd & Hz & Hlen).
  destruct (motion_mask_zero d Hz) as [Hmz Hc].
  rewrite get_motion_unfold, Er2, Ep2, Hl.
  cbn [store set_last_frame snd self last_frame].
  rewrite Ed. cbv zeta. fold (motion_mask d).
  assert (Hsz : size (motion_mask d) = size f).
  { unfold size, motion_mask, cv2.threshold, shape in *.
    cbn [snd nrows ncols]. congruence. }
  unfold truediv. rewrite Hc, Hsz.
  destruct (Z.eqb_spec (Z.of_nat (size f)) 0) as [E|E];
    [now apply nonempty_size in Hf|].
  do 3 eexists. split; [reflexivity|].
  split; [|split; [|split]].
  - unfold Qdiv. cbn [Z.of_nat Z.mul]. apply Qmult_0_l.
  - unfold motion_mask, cv2.threshold, shape in *. cbn [snd nrows ncols].
    congruence.
  - unfold well_formed, motion_mask, cv2.threshold, size, shape in *.
    cbn [snd nrows ncols data]. rewrite length_map, Hlen, Hw. congruence.
  - exact Hmz.
Qed.

Lemma get_motion_identical_frames_witness :
  exists mask a m4,
    get_motion (after_first_call [Some (flat 77); Some (flat 77)]) =
      (Return (Some (flat 77), Some mask, a), m4) /\
    (a == 0)%Q /\ Forall (fun v => v = 0) (data mask).
Proof.
  destruct (get_motion_identical_frames
              (fresh [Some (flat 77); Some (flat 77)])
              (flat 77)
              (snd (get_motion_read (fresh [Some (flat 77); Some (flat 77)])))
              (Some (flat 77), Some (mk_ndarray 2 2 [0; 0; 0; 0]), 0%Q)
              (after_first_call [Some (flat 77); Some (flat 77)])
              (snd (get_motion_read
                      (after_first_call [Some (flat 77); Some (flat 77)]))))
    as (mask & a & m4 & E & Ha & _ & _ & Hz); [vm_compute; reflexivity ..|].
  exists mask, a, m4. auto.
Defined.

(** * The default kernel: a 3x3 box blur *)

Lemma cvRound_comp q q' : (q == q')%Q -> cv2.cvRound q = cv2.cvRound q'.
Proof.
  intros H. unfold cv2.cvRound. rewrite <- (Qfloor_comp _ _ H).
  assert (E : (q - inject_Z (Qfloor q) ?= 1 # 2)%Q =
              (q' - inject_Z (Qfloor q) ?= 1 # 2)%Q).
  { apply Qcompare_comp; [|reflexivity].
    unfold Qminus. apply Qplus_comp; [exact H|reflexivity]. }
  now rewrite E.
Qed.

Lemma cvRound_ninth s : cv2.cvRound ((1 # 9) * inject_Z s) = (s + 4) / 9.
Proof.
  unfold cv2.cvRound.
  assert (Hf : Qfloor ((1 # 9) * inject_Z s) = s / 9).
  { unfold Qfloor, Qmult, inject_Z. cbn [Qnum Qden].
    rewrite Z.mul_1_l. reflexivity. }
  rewrite Hf. unfold Qcompare, Qminus, Qplus, Qopp, Qmult, inject_Z.
  cbn [Qnum Qden]. 
  change (Z.pos (9 * 1)) with 9. change (1 * Z.pos (9 * 1 * 1)) with 9.
  replace ((1 * s * 1 + - (s / 9) * 9) * 2) with (2 * (s mod 9))
    by (rewrite Z.mod_eq by lia; ring).
  pose proof (Z.mod_pos_bound s 9 ltac:(lia)) as Hm.
  assert (Hd : (s + 4) / 9 = s / 9 + (if s mod 9 <=? 4 then 0 else 1)).
  { destruct (Z.leb_spec (s mod 9) 4); Z.div_mod_to_equations; lia. }
  rewrite Hd.
  destruct (Z.compare_spec (2 * (s mod 9)) 9) as [E|E|E];
    destruct (Z.leb_spec (s mod 9) 4); lia.
Qed.

Lemma sum_app_Q l1 l2 :
  (fold_right Qplus 0 (l1 ++ l2) ==
   fold_right Qplus 0 l1 + fold_right Qplus 0 l2)%Q.
Proof.
  induction l1 as [|a l1 IH]; cbn [app fold_right].
  - now rewrite Qplus_0_l.
  - rewrite IH. apply Qplus_assoc.
Qed.

Lemma sum_app_Z l1 l2 :
  fold_right Z.add 0 (l1 ++ l2) =
  fold_right Z.add 0 l1 + fold_right Z.add 0 l2.
Proof. induction l1; cbn [app fold_right]; lia. Qed.

Lemma weighted_row (c : Q) (cf : nat -> Q) (v : nat -> Z) l :
  (forall j, In j l -> (cf j == c)%Q) ->
  (fold_right Qplus 0 (map (fun j => cf j * inject_Z (v j)) l) ==
   c * inject_Z (fold_right Z.add 0%Z (map v l)))%Q.
Proof.
  induction l as [|j l IH]; intros H; cbn [map fold_right].
  - now rewrite Qmult_0_r.
  - rewrite IH by (intros; apply H; now right).
    rewrite (H j) by now left.
    rewrite inject_Z_plus. ring.
Qed.

(** Under a kernel of equal coefficients the correlation is the
    coefficient times the window sum. *)
Lemma correlate_uniform src k c y x :
  (forall i j, (i < nrows k)%nat -> (j < ncols k)%nat ->
               (item 0%Q k i j == c)%Q) ->
  (cv2.correlate src k y x ==
   c * inject_Z (window src (nrows k) (ncols k) y x))%Q.
Proof.
  intros H. unfold cv2.correlate, window.
  assert (Hi : forall i, In i (seq 0 (nrows k)) -> (i < nrows k)%nat).
  { intros i Hi. apply in_seq in Hi. lia. }
  induction (seq 0 (nrows k)) as [|i li IH]; cbn [flat_map fold_right].
  - now rewrite Qmult_0_r.
  - rewrite sum_app_Q, sum_app_Z, inject_Z_plus, Qmult_plus_distr_r.
    rewrite IH by (intros; apply Hi; now right).
    apply Qplus_comp; [|reflexivity].
    apply (weighted_row c (fun j => item 0%Q k i j)).
    intros j Hj. apply in_seq in Hj. apply H; [apply Hi; now left|lia].
Qed.

Lemma box_kernel_item i j :
  (i < 3)%nat -> (j < 3)%nat ->
  (item 0%Q (box_kernel) i j == 1 # 9)%Q.
Proof.
  intros Hi Hj.
  destruct i as [|[|[|i]]]; [| | |lia];
    (destruct j as [|[|[|j]]]; [| | |lia]); vm_compute; reflexivity.
Qed.

(** The default kernel computes the box blur. *)
Lemma filter2D_box src :
  cv2.filter2D src (box_kernel) = Return (box_blur src).
Proof.
  unfold cv2.filter2D. change (cv2.empty (box_kernel)) with false.
  cbv iota. unfold box_blur, tabulate.
  apply f_equal, f_equal, map_ext. intros i. f_equal.
  rewrite <- cvRound_ninth. apply cvRound_comp.
  apply (correlate_uniform src (box_kernel) (1 # 9)).
  intros a b Ha Hb. now apply box_kernel_item.
Qed.

Lemma gray_of_gray v : is_u8 v -> cv2.gray_of (bgr v v v) = v.
Proof.
  unfold is_u8, cv2.gray_of, cv2.saturate_u8. cbn [blue green red]. intros H.
  rewrite Z.shiftr_div_pow2 by lia. change (2 ^ 15) with 32768.
  replace ((3735 * v + 19235 * v + 9798 * v + 16384) / 32768) with v
    by (Z.div_mod_to_equations; lia).
  lia.
Qed.

Lemma apply_kernel_gray h w g m :
  kernel (self m) = box_kernel ->
  Forall is_u8 g -> (0 < h)%nat -> (0 < w)%nat ->
  fst (_apply_kernel (gray_frame h w g) None m) =
    Return (box_blur (mk_ndarray h w g)).
Proof.
  intros Hk Hg Hh Hw. rewrite apply_kernel_run. cbn [fst].
  unfold cv2.cvtColor, cv2.empty, gray_frame. cbn [nrows ncols data].
  destruct h; [lia|]. destruct w; [lia|]. cbn [Nat.eqb orb].
  rewrite Hk, map_map.
  replace (map (fun v => cv2.gray_of (bgr v v v)) g) with g.
  - apply filter2D_box.
  - induction Hg as [|v l Hv _ IH]; cbn [map]; [reflexivity|].
    now rewrite gray_of_gray, <- IH.
Qed.

Lemma at_most_one_hot_true : at_most_one_hot = true.
Proof. vm_compute. reflexivity. Qed.

Lemma delta_nth g2 g1 n :
  length g1 = length g2 ->
  nth n (delta g2 g1) 0 = nth n g2 0 - nth n g1 0.
Proof.
  intros Hl. unfold delta.
  destruct (Nat.lt_ge_cases n (length g2)) as [Hn|Hn].
  - change 0 with ((fun ab : Z * Z => fst ab - snd ab) (0, 0)) at 1.
    rewrite map_nth, combine_nth by congruence. reflexivity.
  - rewrite !nth_overflow; rewrite ?length_map, ?length_combine; lia.
Qed.

Lemma sum_sub {A} (f g : A -> Z) l :
  fold_right Z.add 0 (map (fun a => f a - g a) l) =
  fold_right Z.add 0 (map f l) - fold_right Z.add 0 (map g l).
Proof. induction l; cbn [map fold_right]; lia. Qed.

Lemma item_delta h w g2 g1 y x :
  length g1 = length g2 ->
  item 0 (mk_ndarray h w (delta g2 g1)) y x =
  item 0 (mk_ndarray h w g2) y x - item 0 (mk_ndarray h w g1) y x.
Proof. intros Hl. unfold item. cbn [data ncols]. now apply delta_nth. Qed.

(** The window sum is linear in the image. *)
Lemma window_delta h w g2 g1 kr kc y x :
  length g1 = length g2 ->
  window (mk_ndarray h w (delta g2 g1)) kr kc y x =
  window (mk_ndarray h w g2) kr kc y x - window (mk_ndarray h w g1) kr kc y x.
Proof.
  intros Hl. unfold window. cbn [nrows ncols].
  induction (seq 0 kr) as [|i li IH]; cbn [flat_map fold_right]; [reflexivity|].
  rewrite !sum_app_Z, IH.
  rewrite (map_ext _ _ (fun j => item_delta h w g2 g1 _ _ Hl)), sum_sub.
  lia.
Qed.

(** A blurred difference above the threshold needs window sums more than
    270 apart. *)
Lemma blurred_difference_bound W2 W1 :
  30 < cv2.saturate_u8
         (Z.abs (cv2.saturate_u8 ((W2 + 4) / 9) - cv2.saturate_u8 ((W1 + 4) / 9))) ->
  270 < Z.abs (W2 - W1).
Proof.
  unfold cv2.saturate_u8. intros H. Z.div_mod_to_equations. lia.
Qed.

Lemma filter_length_mono {A} (f g : A -> bool) l :
  (forall a, In a l -> f a = true -> g a = true) ->
  (length (filter f l) <= length (filter g l))%nat.
Proof.
  induction l as [|a l IH]; intros H; cbn [filter]; [lia|].
  assert (IH' := IH (fun b Hb => H b (or_intror Hb))).
  destruct (f a) eqn:Ef.
  - rewrite (H a (or_introl eq_refl) Ef). cbn [length]. lia.
  - destruct (g a); cbn [length]; lia.
Qed.

Lemma combine_map_same {A B C} (f : A -> B) (g : A -> C) l :
  combine (map f l) (map g l) = map (fun a => (f a, g a)) l.
Proof. induction l; cbn; congruence. Qed.

Lemma filter_map_length {A B} (f : B -> bool) (g : A -> B) l :
  length (filter f (map g l)) = length (filter (fun a => f (g a)) l).
Proof.
  induction l as [|a l IH]; cbn [map filter]; [reflexivity|].
  destruct (f (g a)); cbn [length]; now rewrite IH.
Qed.

Lemma absdiff_data a b d :
  cv2.absdiff a b = Return d ->
  data d =
    map (fun ab => cv2.saturate_u8 (Z.abs (fst ab - snd ab)))
      (combine (data a) (data b)).
Proof.
  unfold cv2.absdiff. destruct (_ && _)%bool; [|discriminate].
  intros H. injection H as <-. reflexivity.
Qed.

(** The mask of two blurred 4x4 images is set only where the difference
    image is [hot]. *)
Lemma mask_count_hot g2 g1 d :
  length g1 = length g2 ->
  cv2.absdiff (box_blur (mk_ndarray 4 4 g2)) (box_blur (mk_ndarray 4 4 g1))
    = Return d ->
  (count_nonzero (motion_mask d) <=
   length (filter (hot (delta g2 g1)) (seq 0 16)))%nat.
Proof.
  intros Hl H. apply absdiff_data in H.
  unfold count_nonzero, motion_mask, cv2.threshold. cbn [snd data].
  rewrite H. unfold box_blur, tabulate. cbn [nrows ncols data].
  change (4 * 4)%nat with 16%nat.
  rewrite combine_map_same, !map_map, filter_map_length.
  apply filter_length_mono. intros i _. unfold hot. cbn [fst snd].
  rewrite window_delta by exact Hl.
  set (W2 := window (mk_ndarray 4 4 g2) 3 3 (i / 4) (i mod 4)).
  set (W1 := window (mk_ndarray 4 4 g1) 3 3 (i / 4) (i mod 4)).
  destruct (Z.gtb_spec
              (cv2.saturate_u8
                 (Z.abs (cv2.saturate_u8 ((W2 + 4) / 9) -
                         cv2.saturate_u8 ((W1 + 4) / 9)))) 30) as [Hgt|Hle].
  - intros _. apply Z.ltb_lt. now apply blurred_difference_bound.
  - cbn. discriminate.
Qed.

Lemma pattern_nth p q sp sq k :
  (k < 16)%nat ->
  nth k (pattern p q sp sq) 0 =
    if (k =? p)%nat then sp else if (k =? q)%nat then sq else 0.
Proof.
  intros Hk. unfold pattern.
  set (f := fun k => if (k =? p)%nat then sp
                     else if (k =? q)%nat then sq else 0).
  rewrite (nth_indep _ 0 (f 0%nat))
    by (rewrite length_map, length_seq; exact Hk).
  rewrite (map_nth f), seq_nth by exact Hk. reflexivity.
Qed.

Lemma delta_pattern g1 g2 :
  length g1 = 16%nat -> differ_in_two_by 50 g1 g2 ->
  exists p q sp sq,
    (p < 16)%nat /\ (q < 16)%nat /\ p <> q /\
    (sp = 50 \/ sp = -50) /\ (sq = 50 \/ sq = -50) /\
    delta g2 g1 = pattern p q sp sq.
Proof.
  intros H16 (Hl & p & q & Hp & Hq & Hpq & Ap & Aq & Hk).
  rewrite H16 in Hp, Hq.
  exists p, q, (nth p g2 0 - nth p g1 0), (nth q g2 0 - nth q g1 0).
  repeat (split; [assumption || lia|]).
  apply (nth_ext _ _ 0 0).
  - unfold delta, pattern.
    rewrite !length_map, length_combine, length_seq. lia.
  - intros k Hlen. unfold delta in Hlen.
    rewrite length_map, length_combine in Hlen.
    rewrite delta_nth by exact Hl. rewrite pattern_nth by lia.
    destruct (Nat.eqb_spec k p) as [->|Hkp]; [reflexivity|].
    destruct (Nat.eqb_spec k q) as [->|Hkq]; [reflexivity|].
    rewrite (Hk k Hkp Hkq). lia.
Qed.

Lemma pattern_hot_count p q sp sq :
  (p < 16)%nat -> (q < 16)%nat -> p <> q ->
  sp = 50 \/ sp = -50 -> sq = 50 \/ sq = -50 ->
  (length (filter (hot (pattern p q sp sq)) (seq 0 16)) <= 1)%nat.
Proof.
  intros Hp Hq Hpq Hsp Hsq.
  pose proof at_most_one_hot_true as H. unfold at_most_one_hot in H.
  rewrite forallb_forall in H.
  specialize (H p ltac:(apply in_seq; lia)). rewrite forallb_forall in H.
  specialize (H q ltac:(apply in_seq; lia)). rewrite forallb_forall in H.
  specialize (H sp ltac:(destruct Hsp as [->| ->]; cbn; auto)). rewrite forallb_forall in H.
  specialize (H sq ltac:(destruct Hsq as [->| ->]; cbn; auto)).
  apply orb_true_iff in H as [H|H].
  - apply Nat.eqb_eq in H. contradiction.
  - now apply Nat.leb_le in H.
Qed.

(** * Two changed pixels under the blur *)

(** C5, as amended: for two consecutively captured 4x4 gray frames that
    differ in exactly 2 pixels by 50, the second call returns, its amount
    is [count_nonzero(mask) * 100 / 16] for the mask it returns, and that
    mask has at most one pixel set: the 3x3 box blur spreads each change of
    50 over its neighbourhood, so the amount is at most 6.25 and never
    12.5. *)
Theorem two_pixel_change_under_blur m m1 r1 m2 m3 g1 g2 :
  kernel (self m) = box_kernel ->
  length g1 = 16%nat ->
  Forall is_u8 g1 -> Forall is_u8 g2 ->
  differ_in_two_by 50 g1 g2 ->
  get_motion_read m = (Return (Some (gray_frame 4 4 g1)), m1) ->
  get_motion m = (Return r1, m2) ->
  get_motion_read m2 = (Return (Some (gray_frame 4 4 g2)), m3) ->
  exists mask a m4,
    get_motion m2 = (Return (Some (gray_frame 4 4 g2), Some mask, a), m4) /\
    a = amount_of mask /\
    (count_nonzero mask <= 1)%nat /\
    (a <= 25 # 4)%Q /\
    ~ (a == 25 # 2)%Q.
Proof.
  intros Hk H16 Hu1 Hu2 Hd Er H Er2.
  apply get_motion_inv in H as [[Hn _]|(f' & m1' & p1 & Er' & Ep1 & -> & _)];
    [congruence|].
  rewrite Er in Er'. injection Er' as <- <-.
  pose proof Er as Hf1. apply get_motion_read_frame in Hf1 as (_ & _ & Hk1 & _).
  pose proof Er2 as Hf2. apply get_motion_read_frame in Hf2 as (_ & Hl3 & Hk3 & _).
  cbn [store set_last_frame snd self last_frame kernel] in Hl3, Hk3.
  rewrite apply_kernel_gray in Ep1 by (try lia; congruence).
  injection Ep1 as <-.
  assert (Ep2 : fst (_apply_kernel (gray_frame 4 4 g2) None m3) =
                Return (box_blur (mk_ndarray 4 4 g2))).
  { apply apply_kernel_gray; try lia; congruence. }
  destruct (absdiff_returns (box_blur (mk_ndarray 4 4 g2))
              (box_blur (mk_ndarray 4 4 g1)) eq_refl) as [d Ed].
  pose proof (absdiff_shape _ _ _ Ed) as (Hs & _).
  assert (Hsz : size (motion_mask d) = 16%nat).
  { unfold size, motion_mask, cv2.threshold, shape in *. cbn [snd nrows ncols].
    injection Hs as -> ->. reflexivity. }
  assert (Hc : (count_nonzero (motion_mask d) <= 1)%nat).
  { destruct Hd as [Hl Hd']. 
    etransitivity; [apply (mask_count_hot g2 g1 d Hl Ed)|].
    destruct (delta_pattern g1 g2 H16 (conj Hl Hd'))
      as (p & q & sp & sq & Hp & Hq & Hpq & Hsp & Hsq & ->).
    now apply pattern_hot_count. }
  exists (motion_mask d), (amount_of (motion_mask d)).
  eexists. split; [|split; [reflexivity|split; [exact Hc|]]].
  - rewrite get_motion_unfold, Er2, Ep2, Hl3, Ed. cbv zeta.
    fold (motion_mask d). unfold truediv. rewrite Hsz. cbn [Z.of_nat Z.eqb Pos.of_succ_nat].
    unfold amount_of. rewrite Hsz. reflexivity.
  - unfold amount_of. rewrite Hsz.
    set (c := count_nonzero (motion_mask d)) in *.
    unfold Qle, Qeq, Qdiv, Qmult, Qinv, inject_Z. cbn [Qnum Qden Z.of_nat Pos.of_succ_nat Pos.succ].
    split; [|intros E]; lia.
Qed.

Lemma black_is_u8 : Forall is_u8 black.
Proof. repeat (constructor; [unfold is_u8; lia|]). constructor. Qed.

Lemma corners_is_u8 : Forall is_u8 corners.
Proof. repeat (constructor; [unfold is_u8; lia|]). constructor. Qed.

Lemma near_corner_is_u8 : Forall is_u8 near_corner.
Proof. repeat (constructor; [unfold is_u8; lia|]). constructor. Qed.

Lemma black_near_corner_differ : differ_in_two_by 50 black near_corner.
Proof.
  split; [reflexivity|]. exists 4%nat, 5%nat. cbn [length black near_corner].
  repeat (split; [reflexivity || lia|]).
  intros k H4 H5.
  do 16 (destruct k as [|k]; [reflexivity || contradiction|]).
  reflexivity.
Qed.

Lemma black_corners_differ : differ_in_two_by 50 black corners.
Proof.
  split; [reflexivity|]. exists 0%nat, 15%nat. cbn [length black corners].
  repeat (split; [reflexivity || lia|]).
  intros k H0 H15.
  do 16 (destruct k as [|k]; [reflexivity || contradiction|]).
  reflexivity.
Qed.

Lemma two_pixel_change_under_blur_witness :
  exists mask a m4,
    get_motion
      (after_first_call
         [Some (gray_frame 4 4 black); Some (gray_frame 4 4 near_corner)]) =
      (Return (Some (gray_frame 4 4 near_corner), Some mask, a), m4) /\
    (a <= 25 # 4)%Q.
Proof.
  destruct (two_pixel_change_under_blur
              (fresh [Some (gray_frame 4 4 black);
                      Some (gray_frame 4 4 near_corner)])
              (snd (get_motion_read
                      (fresh [Some (gray_frame 4 4 black);
                              Some (gray_frame 4 4 near_corner)])))
              (Some (gray_frame 4 4 black),
               Some (zeros_like (mk_ndarray 4 4 black)), 0%Q)
              (after_first_call
                 [Some (gray_frame 4 4 black);
                  Some (gray_frame 4 4 near_corner)])
              (snd (get_motion_read
                      (after_first_call
                         [Some (gray_frame 4 4 black);
                          Some (gray_frame 4 4 near_corner)])))
              black near_corner)
    as (mask & a & m4 & E & _ & _ & Ha & _).
  - reflexivity.
  - reflexivity.
  - exact black_is_u8.
  - exact near_corner_is_u8.
  - exact black_near_corner_differ.
  - vm_compute. reflexivity.
  - vm_compute. reflexivity.
  - vm_compute. reflexivity.
  - exists mask, a, m4. split; [exact E|exact Ha].
Defined.

(** The bound is reached: a change next to a corner sets the corner pixel
    of the mask, one pixel of 16. *)
Example one_pixel_of_the_mask :
  fst (get_motion
         (after_first_call
            [Some (gray_frame 4 4 black);
             Some (gray_frame 4 4 near_corner)])) =
    Return (Some (gray_frame 4 4 near_corner),
            Some (mk_ndarray 4 4
                    [255; 0; 0; 0;  0; 0; 0; 0;  0; 0; 0; 0;  0; 0; 0; 0]),
            (100 # 16)%Q).
Proof. vm_compute. reflexivity. Qed.

(** C5 as stated fails: a black 4x4 frame followed by one with 50 at two
    opposite corners differ in exactly 2 pixels by 50, yet the blurred
    frames differ by 6 at most, the mask is empty and the amount is 0, not
    12.5. *)
Lemma two_pixel_change_counterexample :
  differ_in_two_by 50 black corners /\
  fst (get_motion
         (after_first_call
            [Some (gray_frame 4 4 black); Some (gray_frame 4 4 corners)])) =
    Return (Some (gray_frame 4 4 corners),
            Some (mk_ndarray 4 4 black),
            (0 # 16)%Q) /\
  ~ (0 # 16 == 25 # 2)%Q.
Proof.
  split; [exact black_corners_differ|].
  split; [vm_compute; reflexivity|].
  intros H. discriminate H.
Qed.

(** * Further properties *)

(** X10: [_apply_kernel], with or without a kernel argument, never touches
    the object; it raises [cv2.error] exactly when the frame or the kernel
    it uses is empty, and otherwise returns a well-formed 8-bit image of
    the shape of the frame. *)
Theorem apply_kernel_outcome f karg m :
  snd (_apply_kernel f karg m) = m /\
  (fst (_apply_kernel f karg m) = Raise cv2_error <->
   cv2.empty f = true \/ cv2.empty (kernel_used karg m) = true) /\
  (cv2.empty f = false -> cv2.empty (kernel_used karg m) = false ->
   exists p,
     fst (_apply_kernel f karg m) = Return p /\
     shape p = shape f /\ well_formed p /\ Forall is_u8 (data p)).
Proof. exact (apply_kernel_result f karg m). Qed.

Lemma apply_kernel_outcome_witness :
  exists p,
    fst (_apply_kernel (flat 9) (Some identity_kernel) (fresh [])) = Return p /\
    shape p = shape (flat 9) /\ Forall is_u8 (data p).
Proof.
  destruct (apply_kernel_outcome (flat 9) (Some identity_kernel) (fresh []))
    as (_ & _ & H).
  destruct H as (p & E & Hs & _ & Hu); [reflexivity ..|].
  exists p. auto.
Defined.

(** X7: [get_motion] raises exactly in two cases.  Either it holds no open
    capture and the [start_capture] it runs raises: [cv2.error] for a
    camera index that is no C [int], [OverflowError] for a width or height
    that no [double] holds.  Or its read succeeds and the kernel is empty
    or the previous frame has another shape than the frame read, with
    [cv2.error].  It never raises a division by zero or a missing capture
    object, and the previous frame is left as it was. *)
Theorem get_motion_raises_iff m e m' :
  (get_motion m = (Raise e, m') <->
   (not_capturing m /\ start_capture m = (Raise e, m')) \/
   (e = cv2_error /\
    exists f,
      get_motion_read m = (Return (Some f), m') /\
      (cv2.empty (kernel (self m)) = true \/
       exists last, last_frame (self m) = Some last /\ shape last <> shape f))) /\
  (start_capture m = (Raise e, m') ->
   (e = cv2_error /\ cv2.fits_int (camera_index (self m)) = false) \/
   (e = OverflowError /\ cv2.fits_int (camera_index (self m)) = true /\
    (cv2.fits_double (width (self m)) = false \/
     cv2.fits_double (height (self m)) = false))) /\
  (get_motion m = (Raise e, m') ->
   last_frame (self m') = last_frame (self m) /\
   (e = cv2_error \/ e = OverflowError)).
Proof.
  split; [split|split].
  - intros H. now apply get_motion_raises in H.
  - intros [H|(-> & f & Er & H)].
    + apply get_motion_read_raises in H.
      rewrite get_motion_unfold, H. reflexivity.
    + now apply (get_motion_raises_when m f m').
  - apply start_capture_raises.
  - intros H. apply get_motion_raises in H as (Hl & [[_ H]|[-> _]]).
    + split; [exact Hl|].
      apply start_capture_raises in H as [[-> _]|[-> _]]; auto.
    + auto.
Qed.

Lemma get_motion_raises_iff_witness :
  get_motion (after_first_call [Some (flat 100); Some (gray_frame 1 1 [5])]) =
    (Raise cv2_error,
     snd (get_motion_read
            (after_first_call [Some (flat 100); Some (gray_frame 1 1 [5])]))).
Proof.
  apply (proj2 (proj1 (get_motion_raises_iff
                         (after_first_call
                            [Some (flat 100); Some (gray_frame 1 1 [5])])
                         cv2_error
                         (snd (get_motion_read
                                 (after_first_call
                                    [Some (flat 100);
                                     Some (gray_frame 1 1 [5])])))))).
  right. split; [reflexivity|]. exists (gray_frame 1 1 [5]).
  split; [vm_compute; reflexivity|].
  right. exists (mk_ndarray 2 2 [100; 100; 100; 100]).
  split; [vm_compute; reflexivity|].
  vm_compute. intros H. discriminate H.
Defined.

(** A camera index that is no C [int]: the first call raises [cv2.error]
    and touches neither the object nor the device. *)
Example get_motion_index_refused :
  let m := mk_Machine (__init__ (2 ^ 31) 640 480)
             (world_of 0 [Some (flat 100)]) in
  fst (get_motion m) = Raise cv2_error /\
  calls (world (snd (get_motion m))) = [] /\
  cap (self (snd (get_motion m))) = None.
Proof. vm_compute. repeat split. Qed.

Lemma motion_mask_binary d :
  Forall (fun v => v = 0 \/ v = 255) (data (motion_mask d)).
Proof.
  unfold motion_mask, cv2.threshold. cbn [snd data].
  apply Forall_forall. intros v Hv. apply in_map_iff in Hv as (u & <- & _).
  destruct (u >? 30); [right|left]; reflexivity.
Qed.

Lemma absdiff_well_formed p last d :
  cv2.absdiff p last = Return d ->
  well_formed p -> well_formed last -> well_formed d.
Proof.
  intros Ed Hp Hl. pose proof (absdiff_data _ _ _ Ed) as Hd.
  apply absdiff_shape in Ed as (Hs & Hs' & _).
  unfold well_formed, size, shape in *. rewrite Hd, length_map, length_combine.
  injection Hs as -> ->. injection Hs' as Hr Hc. rewrite Hr, Hc in Hl. lia.
Qed.

(** X5: when the previous frame, if any, is a well-formed array, what
    [get_motion] returns is [(None, None, 0)] or the frame with a mask that
    is a well-formed array of the shape of the frame holding only 0 and
    255. *)
Theorem get_motion_mask_binary m r m' :
  (forall last, last_frame (self m) = Some last -> well_formed last) ->
  get_motion m = (Return r, m') ->
  r = (None, None, 0%Q) \/
  exists f mask,
    r = (Some f, Some mask, snd r) /\
    shape mask = shape f /\
    well_formed mask /\
    Forall (fun v => v = 0 \/ v = 255) (data mask).
Proof.
  intros Hwf H.
  apply get_motion_inv in H as [[_ ->]|(f & m1 & p & _ & Ep & _ & H)];
    [now left|right].
  apply apply_kernel_shape in Ep as (Hs & Hw & _).
  destruct H as [[_ ->]|(last & d & Hl & Ed & _ & ->)].
  - exists f, (zeros_like p). split; [reflexivity|].
    destruct (zeros_like_spec p) as (Hz & Hzw & Hz0 & _).
    split; [congruence|]. split; [exact Hzw|].
    eapply Forall_impl; [|exact Hz0]. cbn. auto.
  - exists f, (motion_mask d). split; [reflexivity|].
    pose proof (absdiff_well_formed _ _ _ Ed Hw (Hwf _ Hl)) as Hdw.
    apply absdiff_shape in Ed as (Hd & _).
    split; [unfold motion_mask, cv2.threshold, shape in *;
            cbn [snd nrows ncols]; congruence|].
    split; [|apply motion_mask_binary].
    unfold well_formed, motion_mask, cv2.threshold, size in *.
    cbn [snd data nrows ncols]. now rewrite length_map.
Qed.

Lemma get_motion_mask_binary_witness :
  Forall (fun v => v = 0 \/ v = 255) [255; 255; 255; 255].
Proof.
  destruct (get_motion_mask_binary
              (after_first_call [Some (flat 100); Some (flat 131)])
              (Some (flat 131), Some (mk_ndarray 2 2 [255; 255; 255; 255]),
               (400 # 4)%Q)
              (snd (get_motion
                      (after_first_call [Some (flat 100); Some (flat 131)]))))
    as [H|(f & mask & Hr & _ & _ & Hb)].
  - intros last H. vm_compute in H. injection H as <-. reflexivity.
  - vm_compute. reflexivity.
  - discriminate H.
  - injection Hr as _ <-. exact Hb.
Defined.

Lemma count_motion_mask d : count_nonzero (motion_mask d) = changed_pixels d.
Proof.
  unfold count_nonzero, changed_pixels, motion_mask, cv2.threshold.
  cbn [snd data]. rewrite filter_map_length.
  f_equal. apply filter_ext. intros v. rewrite Z.gtb_ltb.
  destruct (30 <? v); reflexivity.
Qed.

Lemma changed_pixels_zero d :
  changed_pixels d = 0%nat <-> Forall (fun v => v <= 30) (data d).
Proof.
  unfold changed_pixels. induction (data d) as [|v l IH]; cbn [filter].
  - split; auto.
  - destruct (Z.ltb_spec 30 v); cbn [length].
    + split; [discriminate|]. intros H'. inversion H'; lia.
    + rewrite IH. split; [intros; constructor; auto|].
      intros H'. now inversion H'.
Qed.

(** X4: with a previous frame, the amount [get_motion] returns is 100 times
    the number of pixels whose absolute difference between the processed
    frame and the previous one exceeds 30, over the number of pixels of the
    frame; it is zero exactly when no difference exceeds 30. *)
Theorem get_motion_amount_share m f m1 prev r m' :
  get_motion_read m = (Return (Some f), m1) ->
  last_frame (self m) = Some prev ->
  get_motion m = (Return r, m') ->
  exists p d,
    fst (_apply_kernel f None m1) = Return p /\
    cv2.absdiff p prev = Return d /\
    snd r = (inject_Z (Z.of_nat (changed_pixels d) * 100) /
             inject_Z (Z.of_nat (nrows f * ncols f)))%Q /\
    ((snd r == 0)%Q <-> Forall (fun v => v <= 30) (data d)).
Proof.
  intros Er Hl H.
  apply get_motion_inv in H as [[Hn _]|(f' & m1' & p & Er' & Ep & _ & H)];
    [congruence|].
  rewrite Er in Er'. injection Er' as <- <-.
  destruct H as [[Hn _]|(last & d & Hl' & Ed & Hsz & ->)]; [congruence|].
  rewrite Hl in Hl'. injection Hl' as <-.
  exists p, d. split; [exact Ep|]. split; [exact Ed|].
  apply apply_kernel_shape in Ep as (Hs & _).
  apply absdiff_shape in Ed as (Hd & _).
  assert (Hsize : size (motion_mask d) = (nrows f * ncols f)%nat).
  { unfold size, motion_mask, cv2.threshold, shape in *.
    cbn [snd nrows ncols]. congruence. }
  cbn [snd]. unfold amount_of. rewrite count_motion_mask, Hsize in *.
  split; [reflexivity|].
  rewrite <- changed_pixels_zero.
  set (c := changed_pixels d). set (s := (nrows f * ncols f)%nat) in *.
  unfold Qeq, Qdiv, Qmult, Qinv, inject_Z. cbn [Qnum Qden].
  destruct (Z.of_nat s) as [|ps|ps] eqn:Es; [lia| |lia].
  cbn [Qnum Qden]. lia.
Qed.

Lemma get_motion_amount_share_witness :
  exists d,
    cv2.absdiff (mk_ndarray 2 2 [130; 130; 130; 130])
      (mk_ndarray 2 2 [100; 100; 100; 100]) = Return d /\
    ((0 # 4 == 0)%Q <-> Forall (fun v => v <= 30) (data d)).
Proof.
  destruct (get_motion_amount_share
              (after_first_call [Some (flat 100); Some (flat 130)])
              (flat 130)
              (snd (get_motion_read
                      (after_first_call [Some (flat 100); Some (flat 130)])))
              (mk_ndarray 2 2 [100; 100; 100; 100])
              (Some (flat 130), Some (mk_ndarray 2 2 [0; 0; 0; 0]), (0 # 4)%Q)
              (snd (get_motion
                      (after_first_call [Some (flat 100); Some (flat 130)]))))
    as (p & d & Ep & Ed & _ & Hz); [vm_compute; reflexivity ..|].
  vm_compute in Ep. injection Ep as <-.
  exists d. split; [exact Ed|exact Hz].
Defined.

(** X15: a second [stop_capture] in a row changes nothing and makes no
    call on the device. *)
Theorem stop_capture_idempotent m :
  stop_capture (snd (stop_capture m)) = (Return tt, snd (stop_capture m)).
Proof.
  rewrite (stop_capture_run m). cbn [snd].
  rewrite stop_capture_run. cbn [self world cap camera_index width height kernel].
  reflexivity.
Qed.

(** X16: [start_capture] keeps the previous frame, whether it returns or
    raises, and it returns on a representable configuration: the next
    [get_motion] that reads a frame compares it with the frame processed
    before the restart. *)
Theorem start_capture_keeps_last_frame m :
  last_frame (self (snd (start_capture m))) = last_frame (self m) /\
  (representable (self m) -> fst (start_capture m) = Return tt) /\
  forall prev f m1 r m2,
    last_frame (self m) = Some prev ->
    get_motion_read (snd (start_capture m)) = (Return (Some f), m1) ->
    get_motion (snd (start_capture m)) = (Return r, m2) ->
    exists p d,
      fst (_apply_kernel f None m1) = Return p /\
      cv2.absdiff p prev = Return d /\
      r = (Some f, Some (motion_mask d), amount_of (motion_mask d)).
Proof.
  split; [apply start_capture_last_frame|]. split.
  - intros H. now rewrite start_capture_ok.
  - intros prev f m1 r m2 Hl Er H.
    apply get_motion_inv in H as [[Hn _]|(f' & m1' & p & Er' & Ep & _ & H)];
      [congruence|].
    rewrite Er in Er'. injection Er' as <- <-.
    rewrite start_capture_last_frame in H.
    destruct H as [[Hn _]|(last & d & Hl' & Ed & _ & ->)]; [congruence|].
    exists p, d. split; [exact Ep|]. split; [congruence|reflexivity].
Qed.

Lemma start_capture_keeps_last_frame_witness :
  last_frame (self (snd (start_capture (after_first_call [Some (flat 100)]))))
  = Some (mk_ndarray 2 2 [100; 100; 100; 100]).
Proof.
  destruct (start_capture_keeps_last_frame
              (after_first_call [Some (flat 100)])) as (Hl & _).
  rewrite Hl. vm_compute. reflexivity.
Defined.

(** X12: with an open capture, [get_motion] makes one call on the device,
    the read: it keeps the capture object, takes one result from the
    camera of that capture and leaves every other camera alone. *)
Theorem get_motion_open_capture m c :
  cap (self m) = Some c -> cv2.isOpened c = true ->
  let m' := snd (get_motion m) in
  calls (world m') = calls (world m) ++ [CallRead (cv2.device c)] /\
  cap (self m') = Some c /\
  (forall i, i <> cv2.device c -> camera (world m') i = camera (world m) i) /\
  (forall r rest, camera (world m) (cv2.device c) = Some (r :: rest) ->
                  camera (world m') (cv2.device c) = Some rest).
Proof.
  intros Hc Ho m'. subst m'.
  destruct (get_motion_world m) as [-> ->].
  rewrite get_motion_read_run, Hc, Ho, io_run. cbn [snd world self].
  split; [apply read_calls|]. split; [exact Hc|].
  unfold cv2.read. unfold cv2.isOpened in Ho. rewrite Ho.
  split.
  - intros i Hi.
    destruct (camera (world m) (cv2.device c)) as [[|r rest]|];
      cbn [snd camera cv2.log]; try reflexivity.
    destruct (Z.eqb_spec i (cv2.device c)); [contradiction|reflexivity].
  - intros r rest ->. cbn [snd camera]. now rewrite Z.eqb_refl.
Qed.

Lemma get_motion_open_capture_witness :
  calls (world (snd (get_motion
                       (after_first_call [Some (flat 1); Some (flat 2)])))) =
    calls (world (after_first_call [Some (flat 1); Some (flat 2)])) ++
    [CallRead 0].
Proof.
  apply (get_motion_open_capture
           (after_first_call [Some (flat 1); Some (flat 2)])
           (cv2.mk_VideoCapture 0 true)); reflexivity.
Defined.

Lemma read_log_irrelevant c cam l1 l2 :
  fst (cv2.read c (mk_World cam l1)) = fst (cv2.read c (mk_World cam l2)) /\
  camera (snd (cv2.read c (mk_World cam l1))) =
  camera (snd (cv2.read c (mk_World cam l2))).
Proof.
  unfold cv2.read. cbn [camera]. destruct (cv2.opened c); [|split; reflexivity].
  destruct (cam (cv2.device c)) as [[|r rest]|]; split; reflexivity.
Qed.

Lemma start_capture_same_but_log m m' :
  same_but_log m m' ->
  fst (start_capture m) = fst (start_capture m') /\
  same_but_log (snd (start_capture m)) (snd (start_capture m')) /\
  acquired m = acquired m'.
Proof.
  intros [Hs Hc].
  assert (Ha : acquired m = acquired m') by (unfold acquired; now rewrite Hs, Hc).
  rewrite !start_capture_run, <- Hs.
  destruct (cv2.fits_int (camera_index (self m)));
    [destruct (cv2.fits_double (width (self m)));
     [destruct (cv2.fits_double (height (self m)))|]|];
    (split; [reflexivity|]); (split; [|exact Ha]);
    unfold same_but_log, started_with; cbn [snd self world camera];
    rewrite <- ?Hs, <- ?Ha; auto.
Qed.

Lemma io_read_same_but_log c m m' :
  same_but_log m m' ->
  fst (io (cv2.read c) m) = fst (io (cv2.read c) m') /\
  same_but_log (snd (io (cv2.read c) m)) (snd (io (cv2.read c) m')).
Proof.
  destruct m as [s [cam l1]], m' as [s' [cam' l2]].
  intros [Hs Hc]. cbn in Hs, Hc. subst s' cam'.
  rewrite !io_run. cbn [fst snd world self].
  destruct (read_log_irrelevant c cam l1 l2) as [-> Hcam].
  split; [reflexivity|]. split; [reflexivity|exact Hcam].
Qed.

Lemma get_motion_read_same_but_log m m' :
  same_but_log m m' ->
  fst (get_motion_read m) = fst (get_motion_read m') /\
  same_but_log (snd (get_motion_read m)) (snd (get_motion_read m')).
Proof.
  intros H.
  assert (Hlazy : fst (lazy_read m) = fst (lazy_read m') /\
                  same_but_log (snd (lazy_read m)) (snd (lazy_read m'))).
  { unfold lazy_read.
    destruct (start_capture_same_but_log m m' H) as (Ho & Hsim & <-).
    destruct (start_capture m) as [o m1], (start_capture m') as [o' m1'].
    cbn [fst snd] in Ho, Hsim. subst o'.
    destruct o as [u|e]; [now apply io_read_same_but_log|].
    split; [reflexivity|exact Hsim]. }
  rewrite !get_motion_read_run. destruct H as [Hs Hc]. rewrite <- Hs.
  destruct (cap (self m)) as [c|]; [destruct (cv2.isOpened c)|];
    try exact Hlazy.
  apply io_read_same_but_log. split; assumption.
Qed.

Lemma apply_kernel_same_self f m m' :
  self m = self m' ->
  fst (_apply_kernel f None m) = fst (_apply_kernel f None m').
Proof. intros H. rewrite !apply_kernel_run. cbn [fst]. now rewrite H. Qed.

Lemma store_same_but_log p m m' :
  same_but_log m m' -> same_but_log (store p m) (store p m').
Proof.
  intros [Hs Hc]. split; cbn; [now rewrite Hs|exact Hc].
Qed.

(** What [get_motion] returns, and the object it leaves, do not depend on
    the calls made before. *)
Lemma get_motion_same_but_log m m' :
  same_but_log m m' ->
  fst (get_motion m) = fst (get_motion m') /\
  same_but_log (snd (get_motion m)) (snd (get_motion m')).
Proof.
  intros H. destruct (get_motion_read_same_but_log m m' H) as [Hr Hsim].
  rewrite !get_motion_unfold.
  destruct (get_motion_read m) as [o m1], (get_motion_read m') as [o' m1'].
  cbn [fst snd] in Hr, Hsim. subst o'.
  destruct o as [[f|]|e]; try (split; [reflexivity|exact Hsim]).
  rewrite <- (apply_kernel_same_self f m1 m1' (proj1 Hsim)).
  destruct Hsim as [Hs Hc]. rewrite <- Hs.
  destruct (fst (_apply_kernel f None m1)) as [p|e];
    [|split; [reflexivity|split; assumption]].
  assert (Hst : same_but_log (store p m1) (store p m1'))
    by (apply store_same_but_log; split; assumption).
  destruct (last_frame (self m1)) as [last|];
    [|split; [reflexivity|exact Hst]].
  destruct (cv2.absdiff p last) as [d|e];
    [|split; [reflexivity|split; assumption]].
  cbv zeta. destruct (truediv _ _);
    split; try reflexivity; try exact Hst; split; assumption.
Qed.

Lemma poll_same_but_log n m m' :
  same_but_log m m' -> fst (poll n m) = fst (poll n m').
Proof.
  revert m m'. induction n as [|n IH]; intros m m' H; [reflexivity|].
  cbn [poll]. destruct (get_motion_same_but_log m m' H) as [Hr Hsim].
  destruct (get_motion m) as [o m1], (get_motion m') as [o' m1'].
  cbn [fst snd] in Hr, Hsim. subst o'.
  destruct o as [r|e]; [|reflexivity].
  specialize (IH m1 m1' Hsim).
  destruct (poll n m1), (poll n m1'). cbn [fst] in *. now rewrite IH.
Qed.

(** X14: after [stop_capture], any number of [get_motion] calls return what
    they return on a newly constructed object of the same configuration
    facing the same cameras. *)
Theorem stop_capture_as_new n m :
  kernel (self m) = box_kernel ->
  fst (poll n (snd (stop_capture m))) =
  fst (poll n
         (mk_Machine
            (__init__ (camera_index (self m)) (width (self m))
               (height (self m)))
            (world m))).
Proof.
  intros Hk. apply poll_same_but_log. rewrite stop_capture_run.
  split; cbn [snd self world camera].
  - rewrite Hk. reflexivity.
  - destruct (cap (self m)); reflexivity.
Qed.

Lemma stop_capture_as_new_witness :
  fst (poll 2 (snd (stop_capture
                      (after_first_call
                         [Some (flat 1); Some (flat 2); Some (flat 90)])))) =
  fst (poll 2
         (mk_Machine (__init__ 0 640 480)
            (world (after_first_call
                      [Some (flat 1); Some (flat 2); Some (flat 90)])))).
Proof.
  apply (stop_capture_as_new 2
           (after_first_call [Some (flat 1); Some (flat 2); Some (flat 90)])).
  reflexivity.
Defined.

Lemma combine_swap (l1 l2 : list Z) :
  map (fun ab => cv2.saturate_u8 (Z.abs (fst ab - snd ab))) (combine l1 l2) =
  map (fun ab => cv2.saturate_u8 (Z.abs (fst ab - snd ab))) (combine l2 l1).
Proof.
  revert l2. induction l1 as [|a l1 IH]; intros [|b l2]; cbn; try reflexivity.
  rewrite IH. f_equal. f_equal. lia.
Qed.

Lemma absdiff_sym p q d :
  cv2.absdiff p q = Return d -> cv2.absdiff q p = Return d.
Proof.
  unfold cv2.absdiff.
  destruct (Nat.eqb_spec (nrows p) (nrows q)) as [Hr|]; [|discriminate].
  destruct (Nat.eqb_spec (ncols p) (ncols q)) as [Hc|]; [|discriminate].
  cbn [andb]. rewrite <- Hr, <- Hc, !Nat.eqb_refl. cbn [andb].
  intros H. injection H as <-. now rewrite combine_swap.
Qed.

(** X6: motion back is motion forth: when three calls in a row read the
    frames A, B and A and the first two return, the third returns the mask
    and the amount of the second. *)
Theorem get_motion_back_and_forth m a b m1 r0 m2 m3 r1 m4 m5 :
  get_motion_read m = (Return (Some a), m1) ->
  get_motion m = (Return r0, m2) ->
  get_motion_read m2 = (Return (Some b), m3) ->
  get_motion m2 = (Return r1, m4) ->
  get_motion_read m4 = (Return (Some a), m5) ->
  exists m6,
    get_motion m4 = (Return (Some a, snd (fst r1), snd r1), m6).
Proof.
  intros Ea H0 Eb H1 Ea'.
  apply get_motion_inv in H0 as [[Hn _]|(f & x & pa & E & Epa & -> & _)];
    [congruence|].
  rewrite Ea in E. injection E as <- <-.
  apply get_motion_inv in H1 as [[Hn _]|(f & x & pb & E & Epb & -> & H1)];
    [congruence|].
  rewrite Eb in E. injection E as <- <-.
  cbn [store set_last_frame snd self last_frame] in H1.
  destruct H1 as [[Hn _]|(last & d & Hl & Ed & Hsz & ->)]; [discriminate|].
  injection Hl as <-.
  pose proof (get_motion_read_frame _ _ _ Eb) as (_ & _ & Hk3 & _).
  pose proof (get_motion_read_frame _ _ _ Ea') as (_ & Hl5 & Hk5 & _).
  cbn [store set_last_frame snd self last_frame kernel] in Hk3, Hl5, Hk5.
  assert (Epa' : fst (_apply_kernel a None m5) = Return pa).
  { rewrite apply_kernel_run in *. cbn [fst] in *.
    rewrite Hk5, Hk3. exact Epa. }
  rewrite get_motion_unfold, Ea', Epa', Hl5, (absdiff_sym _ _ _ Ed).
  cbv zeta. fold (motion_mask d). unfold truediv.
  destruct (Z.eqb_spec (Z.of_nat (size (motion_mask d))) 0) as [E|E]; [lia|].
  eexists. reflexivity.
Qed.

Lemma get_motion_back_and_forth_witness :
  exists m6,
    get_motion
      (snd (get_motion
              (after_first_call
                 [Some (flat 10); Some (flat 200); Some (flat 10)]))) =
      (Return (Some (flat 10), Some (mk_ndarray 2 2 [255; 255; 255; 255]),
               (400 # 4)%Q), m6).
Proof.
  apply (get_motion_back_and_forth
           (fresh [Some (flat 10); Some (flat 200); Some (flat 10)])
           (flat 10) (flat 200)
           (snd (get_motion_read
                   (fresh [Some (flat 10); Some (flat 200); Some (flat 10)])))
           (Some (flat 10), Some (mk_ndarray 2 2 [0; 0; 0; 0]), 0%Q)
           (after_first_call [Some (flat 10); Some (flat 200); Some (flat 10)])
           (snd (get_motion_read
                   (after_first_call
                      [Some (flat 10); Some (flat 200); Some (flat 10)])))
           (Some (flat 200), Some (mk_ndarray 2 2 [255; 255; 255; 255]),
            (400 # 4)%Q)
           (snd (get_motion
                   (after_first_call
                      [Some (flat 10); Some (flat 200); Some (flat 10)])))
           (snd (get_motion_read
                   (snd (get_motion
                           (after_first_call
                              [Some (flat 10); Some (flat 200);
                               Some (flat 10)]))))));
    vm_compute; reflexivity.
Defined.

Lemma borderInterpolate_lt p len :
  (0 < len)%nat -> (cv2.borderInterpolate p len < len)%nat.
Proof.
  intros H. unfold cv2.borderInterpolate.
  destruct (Z.leb_spec (Z.of_nat len) 1) as [H1|H1]; [lia|].
  pose proof (Z.mod_pos_bound p (2 * Z.of_nat len - 2) ltac:(lia)) as Hm.
  destruct (Z.ltb_spec (p mod (2 * Z.of_nat len - 2)) (Z.of_nat len)); lia.
Qed.

Lemma item_repeat h w v y x :
  (y < h)%nat -> (x < w)%nat ->
  item 0 (mk_ndarray h w (repeat v (h * w))) y x = v.
Proof.
  intros Hy Hx. unfold item. cbn [ncols data].
  apply nth_repeat_lt. nia.
Qed.

Lemma window_uniform h w v y x :
  (0 < h)%nat -> (0 < w)%nat ->
  window (mk_ndarray h w (repeat v (h * w))) 3 3 y x = 9 * v.
Proof.
  intros Hh Hw. unfold window. cbn [nrows ncols seq flat_map map app fold_right].
  rewrite !item_repeat by (apply borderInterpolate_lt; assumption). lia.
Qed.

Lemma map_constant {A B} (f : A -> B) v l :
  (forall a, In a l -> f a = v) -> map f l = repeat v (length l).
Proof.
  induction l as [|a l IH]; intros H; cbn; [reflexivity|].
  rewrite (H a) by now left. f_equal. apply IH. intros; apply H; now right.
Qed.

Lemma box_blur_uniform h w v :
  is_u8 v -> (0 < h)%nat -> (0 < w)%nat ->
  box_blur (mk_ndarray h w (repeat v (h * w))) =
  mk_ndarray h w (repeat v (h * w)).
Proof.
  intros Hv Hh Hw. unfold box_blur, tabulate. cbn [nrows ncols]. f_equal.
  rewrite (map_constant _ v); [now rewrite length_seq|].
  intros i _. rewrite window_uniform by assumption.
  unfold is_u8 in Hv. unfold cv2.saturate_u8.
  replace ((9 * v + 4) / 9) with v by (Z.div_mod_to_equations; lia). lia.
Qed.

Lemma repeat_is_u8 v n : is_u8 v -> Forall is_u8 (repeat v n).
Proof. intros H. apply Forall_forall. intros a Ha. now apply repeat_spec in Ha as ->. Qed.

(** The default blur of a frame of one gray level. *)
Lemma apply_kernel_one_level h w v m :
  kernel (self m) = box_kernel ->
  is_u8 v -> (0 < h)%nat -> (0 < w)%nat ->
  fst (_apply_kernel (uniform h w v) None m) =
    Return (mk_ndarray h w (repeat v (h * w))).
Proof.
  intros Hk Hv Hh Hw. unfold uniform.
  rewrite apply_kernel_gray by (auto using repeat_is_u8).
  now rewrite box_blur_uniform.
Qed.

(** X3: with the default kernel, [_apply_kernel] turns a frame of one gray
    level, of any shape, into the image of that gray level: the weights of
    the box kernel sum to 1 and the border is reflected. *)
Theorem apply_kernel_uniform h w v m :
  kernel (self m) = box_kernel ->
  is_u8 v -> (0 < h)%nat -> (0 < w)%nat ->
  fst (_apply_kernel (uniform h w v) None m) =
    Return (mk_ndarray h w (repeat v (h * w))).
Proof. exact (apply_kernel_one_level h w v m). Qed.

Lemma apply_kernel_uniform_witness :
  fst (_apply_kernel (uniform 3 5 77) None (fresh [])) =
    Return (mk_ndarray 3 5 (repeat 77 (3 * 5))).
Proof.
  apply (apply_kernel_uniform 3 5 77 (fresh []));
    [reflexivity | unfold is_u8; lia | lia | lia].
Defined.

Lemma combine_repeat {A B} (a : A) (b : B) n :
  combine (repeat a n) (repeat b n) = repeat (a, b) n.
Proof. induction n; cbn; congruence. Qed.

Lemma map_repeat {A B} (f : A -> B) a n : map f (repeat a n) = repeat (f a) n.
Proof. induction n; cbn; congruence. Qed.

Lemma count_nonzero_repeat h w v :
  count_nonzero (mk_ndarray h w (repeat v (h * w))) =
    if v =? 0 then 0%nat else (h * w)%nat.
Proof.
  unfold count_nonzero. cbn [data].
  induction (h * w)%nat as [|n IH]; cbn [repeat filter].
  - destruct (v =? 0); reflexivity.
  - destruct (v =? 0); cbn [negb length]; [exact IH|now rewrite IH].
Qed.

(** X2: with the default kernel, two consecutive frames of one gray level
    each, of any shape: when the levels differ by more than 30 every pixel
    of the mask is 255 and the amount is 100, otherwise the mask is empty
    and the amount is 0. *)
Theorem get_motion_uniform_frames h w v1 v2 m m1 r1 m2 m3 :
  kernel (self m) = box_kernel ->
  is_u8 v1 -> is_u8 v2 -> (0 < h)%nat -> (0 < w)%nat ->
  get_motion_read m = (Return (Some (uniform h w v1)), m1) ->
  get_motion m = (Return r1, m2) ->
  get_motion_read m2 = (Return (Some (uniform h w v2)), m3) ->
  exists a m4,
    get_motion m2 =
      (Return (Some (uniform h w v2),
               Some (mk_ndarray h w
                       (repeat (if 30 <? Z.abs (v2 - v1) then 255 else 0)
                          (h * w))),
               a), m4) /\
    (a == if 30 <? Z.abs (v2 - v1) then 100 else 0)%Q.
Proof.
  intros Hk Hv1 Hv2 Hh Hw Er H Er2.
  apply get_motion_inv in H as [[Hn _]|(f' & m1' & p1 & Er' & Ep1 & -> & _)];
    [congruence|].
  rewrite Er in Er'. injection Er' as <- <-.
  pose proof (get_motion_read_frame _ _ _ Er) as (_ & _ & Hk1 & _).
  pose proof (get_motion_read_frame _ _ _ Er2) as (_ & Hl3 & Hk3 & _).
  cbn [store set_last_frame snd self last_frame kernel] in Hl3, Hk3.
  rewrite apply_kernel_one_level in Ep1 by (auto; congruence).
  injection Ep1 as <-.
  rewrite get_motion_unfold, Er2, apply_kernel_one_level, Hl3
    by (auto; congruence).
  unfold cv2.absdiff. cbn [nrows ncols data]. rewrite !Nat.eqb_refl.
  cbn [andb]. cbv zeta. unfold cv2.threshold. cbn [snd nrows ncols data].
  rewrite combine_repeat, !map_repeat. cbn [fst snd].
  assert (Hs : cv2.saturate_u8 (Z.abs (v2 - v1)) = Z.abs (v2 - v1)).
  { unfold is_u8 in *. unfold cv2.saturate_u8. lia. }
  rewrite Hs, Z.gtb_ltb. change (cv2.saturate_u8 255) with 255.
  rewrite count_nonzero_repeat. unfold size. cbn [nrows ncols].
  unfold truediv.
  destruct (Z.eqb_spec (Z.of_nat (h * w)) 0) as [E|E]; [nia|].
  do 2 eexists. split; [reflexivity|].
  destruct (30 <? Z.abs (v2 - v1)); cbn [Z.eqb].
  - unfold Qeq, Qdiv, Qmult, Qinv, inject_Z. cbn [Qnum Qden].
    destruct (Z.of_nat (h * w)) as [|ps|ps] eqn:Es; [lia| |lia].
    cbn [Qnum Qden]. lia.
  - cbn [Z.of_nat Z.mul]. unfold Qdiv. apply Qmult_0_l.
Qed.

Lemma get_motion_uniform_frames_witness :
  exists a m4,
    get_motion (after_first_call [Some (uniform 2 3 40); Some (uniform 2 3 71)])
    = (Return (Some (uniform 2 3 71),
               Some (mk_ndarray 2 3 (repeat 255 (2 * 3))), a), m4) /\
    (a == 100)%Q.
Proof.
  apply (get_motion_uniform_frames 2 3 40 71
           (fresh [Some (uniform 2 3 40); Some (uniform 2 3 71)])
           (snd (get_motion_read
                   (fresh [Some (uniform 2 3 40); Some (uniform 2 3 71)])))
           (Some (uniform 2 3 40), Some (mk_ndarray 2 3 (repeat 0 (2 * 3))),
            0%Q)
           (after_first_call [Some (uniform 2 3 40); Some (uniform 2 3 71)])
           (snd (get_motion_read
                   (after_first_call
                      [Some (uniform 2 3 40); Some (uniform 2 3 71)]))));
    try (unfold is_u8; lia); vm_compute; reflexivity.
Defined.

Lemma gray_of_close c p q :
  close c p q -> Z.abs (cv2.gray_of p - cv2.gray_of q) <= c.
Proof.
  unfold close, cv2.gray_of, cv2.saturate_u8. intros (Hb & Hg & Hr).
  rewrite !Z.shiftr_div_pow2 by lia. change (2 ^ 15) with 32768.
  Z.div_mod_to_equations. lia.
Qed.

Lemma nth_close c (l1 l2 : list Z) n :
  0 <= c ->
  Forall2 (fun a b => Z.abs (a - b) <= c) l1 l2 ->
  Z.abs (nth n l1 0 - nth n l2 0) <= c.
Proof.
  intros Hc H. revert n.
  induction H as [|a b l1 l2 Hab _ IH]; intros [|n]; cbn [nth];
    try lia; auto.
Qed.

Lemma window_close c h w g1 g2 y x :
  0 <= c ->
  Forall2 (fun a b => Z.abs (a - b) <= c) g1 g2 ->
  Z.abs (window (mk_ndarray h w g1) 3 3 y x -
         window (mk_ndarray h w g2) 3 3 y x) <= 9 * c.
Proof.
  intros Hc H. unfold window, item.
  cbn [nrows ncols data seq flat_map map app fold_right].
  repeat match goal with
         | |- context [nth ?n g1 0] =>
             lazymatch goal with
             | _ : Z.abs (nth n g1 0 - nth n g2 0) <= c |- _ => fail
             | _ => pose proof (nth_close c g1 g2 n Hc H);
                    generalize dependent (nth n g1 0);
                    generalize dependent (nth n g2 0); intros
             end
         end.
  lia.
Qed.

Lemma blur_close c W1 W2 :
  Z.abs (W1 - W2) <= 9 * c ->
  cv2.saturate_u8
    (Z.abs (cv2.saturate_u8 ((W1 + 4) / 9) - cv2.saturate_u8 ((W2 + 4) / 9)))
  <= c.
Proof. unfold cv2.saturate_u8. intros H. Z.div_mod_to_equations. lia. Qed.

Lemma motion_mask_quiet d :
  Forall (fun v => v <= 30) (data d) ->
  Forall (fun v => v = 0) (data (motion_mask d)) /\
  count_nonzero (motion_mask d) = 0%nat.
Proof.
  unfold motion_mask, cv2.threshold, count_nonzero. cbn [snd data].
  induction 1 as [|v l Hv _ [IH1 IH2]]; cbn [map filter]; [auto|].
  destruct (Z.gtb_spec v 30); [lia|]. cbn. auto.
Qed.

Lemma apply_kernel_box f m :
  kernel (self m) = box_kernel -> cv2.empty f = false ->
  fst (_apply_kernel f None m) =
    Return (box_blur
              (mk_ndarray (nrows f) (ncols f) (map cv2.gray_of (data f)))).
Proof.
  intros Hk Hf. rewrite apply_kernel_run. cbn [fst].
  unfold cv2.cvtColor. rewrite Hf, Hk. apply filter2D_box.
Qed.

(** X1: with the default kernel, when no channel of any pixel changes by
    more than 30 between two consecutive frames of one shape, the second
    call returns amount 0 and an all-zero mask: neither the gray conversion
    nor the box blur enlarges a difference. *)
Theorem get_motion_small_changes c m f1 f2 m1 r1 m2 m3 :
  kernel (self m) = box_kernel ->
  0 <= c <= 30 ->
  within c f1 f2 ->
  get_motion_read m = (Return (Some f1), m1) ->
  get_motion m = (Return r1, m2) ->
  get_motion_read m2 = (Return (Some f2), m3) ->
  exists mask a m4,
    get_motion m2 = (Return (Some f2, Some mask, a), m4) /\
    (a == 0)%Q /\
    shape mask = shape f2 /\
    Forall (fun v => v = 0) (data mask).
Proof.
  intros Hk Hc [Hsh Hcl] Er H Er2.
  apply get_motion_inv in H as [[Hn _]|(f' & m1' & p1 & Er' & Ep1 & -> & _)];
    [congruence|].
  rewrite Er in Er'. injection Er' as <- <-.
  pose proof (get_motion_read_nonempty _ _ _ Er) as Hf1.
  pose proof (get_motion_read_nonempty _ _ _ Er2) as Hf2.
  pose proof (get_motion_read_frame _ _ _ Er) as (_ & _ & Hk1 & _).
  pose proof (get_motion_read_frame _ _ _ Er2) as (_ & Hl3 & Hk3 & _).
  cbn [store set_last_frame snd self last_frame kernel] in Hl3, Hk3.
  rewrite apply_kernel_box in Ep1 by congruence. injection Ep1 as <-.
  unfold shape in Hsh. injection Hsh as Hr Hcs.
  rewrite get_motion_unfold, Er2, apply_kernel_box, Hl3 by congruence.
  rewrite Hr, Hcs.
  set (g1 := map cv2.gray_of (data f1)).
  set (g2 := map cv2.gray_of (data f2)).
  set (h := nrows f2). set (w := ncols f2).
  assert (Hg : Forall2 (fun a b => Z.abs (a - b) <= c) g2 g1).
  { subst g1 g2. clear -Hcl.
    induction Hcl as [|p q l1 l2 Hpq _ IH]; cbn [map]; constructor; auto.
    apply gray_of_close. unfold close in *. lia. }
  destruct (absdiff_returns (box_blur (mk_ndarray h w g2))
              (box_blur (mk_ndarray h w g1)) eq_refl) as [d Ed].
  rewrite Ed. cbv zeta. fold (motion_mask d).
  assert (Hd : Forall (fun v => v <= 30) (data d)).
  { rewrite (absdiff_data _ _ _ Ed). unfold box_blur, tabulate.
    cbn [nrows ncols data]. rewrite combine_map_same, map_map.
    apply Forall_forall. intros v Hv.
    apply in_map_iff in Hv as (i & <- & _). cbn [fst snd].
    etransitivity; [apply (blur_close c)|lia].
    apply window_close; [lia|exact Hg]. }
  destruct (motion_mask_quiet d Hd) as [Hz Hcount].
  apply absdiff_shape in Ed as (Hds & _).
  assert (Hsz : size (motion_mask d) = size f2).
  { unfold size, motion_mask, cv2.threshold, shape, box_blur, tabulate in *.
    cbn [snd nrows ncols] in *. injection Hds as -> ->. reflexivity. }
  unfold truediv. rewrite Hcount, Hsz.
  destruct (Z.eqb_spec (Z.of_nat (size f2)) 0) as [E|E];
    [now apply nonempty_size in Hf2|].
  do 3 eexists. split; [reflexivity|].
  split; [unfold Qdiv; cbn [Z.of_nat Z.mul]; apply Qmult_0_l|].
  split; [|exact Hz].
  unfold motion_mask, cv2.threshold, shape, box_blur, tabulate in *.
  cbn [snd nrows ncols] in *. exact Hds.
Qed.

Lemma get_motion_small_changes_witness :
  exists mask a m4,
    get_motion
      (after_first_call
         [Some (gray_frame 1 2 [10; 200]); Some (gray_frame 1 2 [40; 170])]) =
      (Return (Some (gray_frame 1 2 [40; 170]), Some mask, a), m4) /\
    (a == 0)%Q.
Proof.
  destruct (get_motion_small_changes 30
              (fresh [Some (gray_frame 1 2 [10; 200]);
                      Some (gray_frame 1 2 [40; 170])])
              (gray_frame 1 2 [10; 200]) (gray_frame 1 2 [40; 170])
              (snd (get_motion_read
                      (fresh [Some (gray_frame 1 2 [10; 200]);
                              Some (gray_frame 1 2 [40; 170])])))
              (Some (gray_frame 1 2 [10; 200]),
               Some (mk_ndarray 1 2 [0; 0]), 0%Q)
              (after_first_call
                 [Some (gray_frame 1 2 [10; 200]);
                  Some (gray_frame 1 2 [40; 170])])
              (snd (get_motion_read
                      (after_first_call
                         [Some (gray_frame 1 2 [10; 200]);
                          Some (gray_frame 1 2 [40; 170])]))))
    as (mask & a & m4 & E & Ha & _).
  - reflexivity.
  - lia.
  - split; [reflexivity|].
    repeat (constructor; [unfold close; cbn; lia|]). constructor.
  - vm_compute. reflexivity.
  - vm_compute. reflexivity.
  - vm_compute. reflexivity.
  - exists mask, a, m4. auto.
Defined.

Lemma get_motion_no_device m :
  representable (self m) ->
  camera (world m) (camera_index (self m)) = None ->
  not_capturing m ->
  get_motion m =
    (Return (None, None, 0%Q),
     mk_Machine
       (mk_MotionCamera (camera_index (self m)) (width (self m))
          (height (self m))
          (Some (cv2.mk_VideoCapture (camera_index (self m)) false))
          (last_frame (self m)) (kernel (self m)))
       (mk_World (camera (world m))
          (calls (world m) ++ start_and_read (self m)))).
Proof.
  intros Hrep Hcam Hn. rewrite get_motion_unfold, get_motion_read_run.
  assert (E : lazy_read m =
              (Return None,
               mk_Machine
                 (mk_MotionCamera (camera_index (self m)) (width (self m))
                    (height (self m))
                    (Some (cv2.mk_VideoCapture (camera_index (self m)) false))
                    (last_frame (self m)) (kernel (self m)))
                 (mk_World (camera (world m))
                    (calls (world m) ++ start_and_read (self m))))).
  { rewrite lazy_read_ok by exact Hrep. rewrite io_run.
    unfold started_with. unfold acquired. rewrite Hcam.
    cbn [fst snd self world].
    rewrite read_closed by reflexivity.
    unfold start_and_read, cv2.log. cbn [fst snd cv2.device camera calls].
    rewrite <- app_assoc. reflexivity. }
  destruct Hn as [->|(c & -> & ->)]; rewrite E; reflexivity.
Qed.

(** X13: while the configured camera cannot be opened and no open capture
    is held, on a representable configuration, every [get_motion] of a
    polling loop returns [(None, None, 0)] after a new attempt to open the
    camera (open, two requests, read), and the previous frame is kept. *)
Theorem poll_no_device n m :
  representable (self m) ->
  camera (world m) (camera_index (self m)) = None ->
  not_capturing m ->
  fst (poll n m) = repeat (Return (None, None, 0%Q)) n /\
  calls (world (snd (poll n m))) =
    calls (world m) ++ concat (repeat (start_and_read (self m)) n) /\
  last_frame (self (snd (poll n m))) = last_frame (self m).
Proof.
  revert m. induction n as [|n IH]; intros m Hrep Hcam Hn.
  - cbn. now rewrite app_nil_r.
  - cbn [poll]. rewrite (get_motion_no_device m Hrep Hcam Hn).
    set (m1 := mk_Machine _ _).
    destruct (IH m1) as (Ho & Hcalls & Hl).
    + exact Hrep.
    + exact Hcam.
    + right. eexists. split; reflexivity.
    + destruct (poll n m1) as [rest m2]. cbn [fst snd] in *.
      rewrite Ho, Hcalls, Hl. subst m1. cbn [self world calls last_frame repeat concat].
      rewrite <- app_assoc. auto.
Qed.

Lemma poll_no_device_witness :
  fst (poll 3 (mk_Machine (__init__ 0 640 480) (mk_World (fun _ => None) [])))
  = repeat (Return (None, None, 0%Q)) 3 /\
  calls (world (snd (poll 3 (mk_Machine (__init__ 0 640 480)
                               (mk_World (fun _ => None) []))))) =
    [] ++ concat (repeat (start_and_read (__init__ 0 640 480)) 3).
Proof.
  destruct (poll_no_device 3
              (mk_Machine (__init__ 0 640 480) (mk_World (fun _ => None) [])))
    as (Hr & Hc & _).
  - repeat split.
  - reflexivity.
  - left. reflexivity.
  - split; [exact Hr|exact Hc].
Defined.

Lemma cvRound_inject v : cv2.cvRound (inject_Z v) = v.
Proof.
  unfold cv2.cvRound. rewrite Qfloor_Z.
  replace (inject_Z v - inject_Z v ?= 1 # 2)%Q with Lt; [reflexivity|].
  symmetry. apply Qlt_alt. 
  setoid_replace (inject_Z v - inject_Z v)%Q with 0%Q by ring.
  reflexivity.
Qed.

Lemma borderInterpolate_inside y len :
  (y < len)%nat -> cv2.borderInterpolate (Z.of_nat y + Z.of_nat 0 - Z.of_nat (1 / 2)) len = y.
Proof.
  intros H. unfold cv2.borderInterpolate. cbn [Nat.div Nat.divmod fst Z.of_nat].
  destruct (Z.leb_spec (Z.of_nat len) 1) as [H1|H1]; [lia|].
  rewrite Z.mod_small by lia.
  destruct (Z.ltb_spec (Z.of_nat y + 0 - 0) (Z.of_nat len)); lia.
Qed.

Lemma tabulate_item (a : Image) :
  well_formed a ->
  tabulate (nrows a) (ncols a) (fun y x => item 0 a y x) = a.
Proof.
  destruct a as [h w l]. unfold well_formed, size, tabulate, item.
  cbn [nrows ncols data]. intros Hl. f_equal.
  apply (nth_ext _ _ 0 0); [now rewrite length_map, length_seq|].
  intros n Hn. rewrite length_map, length_seq in Hn.
  rewrite (nth_indep _ 0 ((fun i => nth (i / w * w + i mod w) l 0) 0%nat))
    by (now rewrite length_map, length_seq).
  rewrite (map_nth (fun i => nth (i / w * w + i mod w) l 0)), seq_nth by exact Hn.
  cbn [Nat.add]. f_equal.
  destruct w; [lia|]. rewrite (Nat.div_mod_eq n (S w)) at 3. lia.
Qed.

Lemma saturate_u8_id v : is_u8 v -> cv2.saturate_u8 v = v.
Proof. unfold is_u8, cv2.saturate_u8. lia. Qed.

Lemma item_is_u8 (a : Image) y x :
  Forall is_u8 (data a) -> is_u8 (item 0 a y x).
Proof.
  intros H. unfold item.
  destruct (nth_in_or_default (y * ncols a + x) (data a) 0) as [Hin| ->].
  - rewrite Forall_forall in H. now apply H.
  - unfold is_u8. lia.
Qed.

(** The 1x1 kernel [1] copies an 8-bit image. *)
Lemma filter2D_identity (g : Image) :
  well_formed g -> Forall is_u8 (data g) ->
  cv2.filter2D g identity_kernel = Return g.
Proof.
  intros Hw Hu. unfold cv2.filter2D.
  change (cv2.empty identity_kernel) with false. cbv iota.
  rewrite <- (tabulate_item g Hw) at 3. unfold tabulate.
  apply f_equal, f_equal, map_ext_in. intros i Hi. apply in_seq in Hi.
  assert (Hc : (0 < ncols g)%nat) by (destruct (ncols g); lia).
  assert (Hy : (i / ncols g < nrows g)%nat)
    by (apply Nat.Div0.div_lt_upper_bound; lia).
  assert (Hx : (i mod ncols g < ncols g)%nat)
    by (apply Nat.mod_upper_bound; lia).
  unfold cv2.correlate.
  cbn [identity_kernel nrows ncols seq flat_map map app fold_right].
  rewrite !borderInterpolate_inside by assumption.
  set (v := item 0 g (i / ncols g) (i mod ncols g)).
  rewrite (cvRound_comp _ (inject_Z v)).
  - rewrite cvRound_inject. apply saturate_u8_id. now apply item_is_u8.
  - change (item 0%Q identity_kernel 0 0) with 1%Q. ring.
Qed.

(** X11: given the 1x1 kernel [1] as its argument, [_apply_kernel] returns
    the gray conversion of the frame unchanged, whatever kernel the object
    holds. *)
Theorem apply_kernel_identity f m :
  cv2.empty f = false -> well_formed f ->
  fst (_apply_kernel f (Some identity_kernel) m) =
    Return (mk_ndarray (nrows f) (ncols f) (map cv2.gray_of (data f))).
Proof.
  intros Hf Hw. rewrite apply_kernel_any. cbn [fst kernel_used].
  unfold cv2.cvtColor. rewrite Hf. apply filter2D_identity.
  - unfold well_formed, size in *. cbn [data nrows ncols].
    now rewrite length_map.
  - cbn [data]. apply Forall_forall. intros v Hv.
    apply in_map_iff in Hv as (p & <- & _). apply saturate_u8_range.
Qed.

Lemma apply_kernel_identity_witness :
  fst (_apply_kernel (gray_frame 1 2 [10; 200]) (Some identity_kernel)
         (fresh [])) =
    Return (mk_ndarray 1 2 [10; 200]).
Proof.
  apply (apply_kernel_identity (gray_frame 1 2 [10; 200]) (fresh []));
    reflexivity.
Defined.

Lemma apply_kernel_u8 f m p :
  fst (_apply_kernel f None m) = Return p ->
  well_formed p /\ Forall is_u8 (data p).
Proof.
  intros H. split; [now apply apply_kernel_shape in H|].
  rewrite apply_kernel_run in H. cbn [fst] in H.
  destruct (cv2.cvtColor f cv2.COLOR_BGR2GRAY) as [g|]; [|discriminate].
  unfold cv2.filter2D in H. destruct (cv2.empty _); [discriminate|].
  injection H as <-. unfold tabulate. cbn [data].
  apply Forall_forall. intros v Hv. apply in_map_iff in Hv as (i & <- & _).
  apply saturate_u8_range.
Qed.

(** What [get_motion] leaves of the object: the object as its read left
    it, with the previous frame kept or replaced by a processed image. *)
Lemma get_motion_self m :
  let m1 := snd (get_motion_read m) in
  let m' := snd (get_motion m) in
  camera_index (self m') = camera_index (self m1) /\
  width (self m') = width (self m1) /\
  height (self m') = height (self m1) /\
  kernel (self m') = kernel (self m1) /\
  cap (self m') = cap (self m1) /\
  world m' = world m1 /\
  (last_frame (self m') = last_frame (self m1) \/
   exists f p, fst (_apply_kernel f None m1) = Return p /\
               last_frame (self m') = Some p).
Proof.
  cbv zeta. rewrite get_motion_unfold.
  destruct (get_motion_read m) as [[[f|]|e] m1]; cbn [snd]; auto 10.
  destruct (fst (_apply_kernel f None m1)) as [p|e] eqn:Ep; cbn [snd]; auto 10.
  destruct (last_frame (self m1)) as [last|] eqn:El.
  - destruct (cv2.absdiff p last); cbn [snd]; auto 10. cbv zeta.
    destruct (truediv _ _); cbn [snd]; auto 10.
    repeat (split; [reflexivity|]). right. exists f, p. auto.
  - cbn [snd]. repeat (split; [reflexivity|]). right. exists f, p. auto.
Qed.

Lemma start_capture_configured index wd ht log0 m :
  configured index wd ht log0 m ->
  configured index wd ht log0 (snd (start_capture m)).
Proof.
  intros H.
  destruct (start_capture_any m) as (o & m' & E & [->|(l & -> & Hincl)] & _);
    rewrite E; cbn [snd]; [exact H|].
  destruct H as (Hi & Hw & Hh & Hk & Hc & Hl & l0 & Hcalls & Hiss).
  unfold configured, started_with.
  cbn [self world camera_index width height kernel cap last_frame calls].
  do 4 (split; [assumption|]).
  split; [intros c0 H0; injection H0 as <-; exact Hi|]. split; [exact Hl|].
  exists (l0 ++ l). rewrite Hcalls, app_assoc. split; [reflexivity|].
  apply Forall_app. split; [exact Hiss|].
  apply Forall_forall. intros c Hin. apply Hincl in Hin.
  rewrite Hi, Hw, Hh in Hin. unfold issued. cbn in Hin.
  intuition auto.
Qed.

Lemma io_read_configured index wd ht log0 m c :
  configured index wd ht log0 m ->
  cv2.device c = index ->
  configured index wd ht log0
    (mk_Machine (self m) (snd (cv2.read c (world m)))).
Proof.
  intros (Hi & Hw & Hh & Hk & Hc & Hl & l & Hcalls & Hiss) Hd.
  unfold configured. cbn [self world].
  do 4 (split; [assumption|]). split; [exact Hc|]. split; [exact Hl|].
  rewrite read_calls.
  exists (l ++ [CallRead (cv2.device c)]). rewrite Hcalls, app_assoc.
  split; [reflexivity|]. apply Forall_app. split; [exact Hiss|].
  constructor; [|constructor]. rewrite Hd. unfold issued. auto 8.
Qed.

Lemma get_motion_read_configured index wd ht log0 m :
  configured index wd ht log0 m ->
  configured index wd ht log0 (snd (get_motion_read m)).
Proof.
  intros H. pose proof (start_capture_configured _ _ _ _ _ H) as Hs.
  assert (Hlazy : configured index wd ht log0 (snd (lazy_read m))).
  { destruct (lazy_read m) as [o m1] eqn:E.
    apply lazy_read_any in E as [(-> & _)|(_ & _ & _ & ->)]; [exact Hs|].
    cbn [snd]. apply (io_read_configured _ _ _ _ (snd (start_capture m)));
      [exact Hs|].
    destruct H as (Hi & _). exact Hi. }
  rewrite get_motion_read_run.
  destruct (cap (self m)) as [c|] eqn:Ec; [destruct (cv2.isOpened c)|];
    try exact Hlazy.
  rewrite io_run. cbn [snd]. apply io_read_configured; [exact H|].
  destruct H as (_ & _ & _ & _ & Hc & _). now apply Hc.
Qed.

(** X9: whatever methods are called on a newly constructed object, its
    index, width, height and kernel stay as constructed, a capture it holds
    is bound to its camera index, its previous frame is a well-formed 8-bit
    image, and every call it has made on the device is an open, a width or
    height request with the configured value, a read or a release on its
    own camera index. *)
Theorem reachable_configured index wd ht w0 m :
  reachable index wd ht w0 m -> configured index wd ht (calls w0) m.
Proof.
  induction 1 as [|m _ IH|m _ IH|m _ IH].
  - unfold configured. cbn [self world __init__ camera_index width height
                            kernel cap last_frame].
    do 4 (split; [reflexivity|]).
    split; [discriminate|]. split; [discriminate|].
    exists []. now rewrite app_nil_r.
  - now apply start_capture_configured.
  - destruct IH as (Hi & Hw & Hh & Hk & Hc & Hl & l & Hcalls & Hiss).
    rewrite stop_capture_run. unfold configured.
    cbn [snd self world camera_index width height kernel cap last_frame].
    do 4 (split; [assumption|]).
    split; [discriminate|]. split; [discriminate|].
    destruct (cap (self m)) as [c|] eqn:Ec; cbn [cv2.log calls].
    + exists (l ++ [CallRelease (cv2.device c)]). rewrite Hcalls, app_assoc.
      split; [reflexivity|]. apply Forall_app. split; [exact Hiss|].
      constructor; [|constructor]. rewrite (Hc c eq_refl). unfold issued. auto 8.
    + exists l. auto.
  - apply get_motion_read_configured in IH.
    destruct IH as (Hi & Hw & Hh & Hk & Hc & Hl & Hcalls).
    destruct (get_motion_self m) as (Ei & Ew & Eh & Ek & Ec & Ewd & Elast).
    unfold configured. rewrite Ei, Ew, Eh, Ek, Ec, Ewd.
    do 5 (split; [assumption|]). split; [|exact Hcalls].
    intros last Hlast. destruct Elast as [E|(f & p & Ep & E)].
    + apply Hl. congruence.
    + rewrite E in Hlast. injection Hlast as <-.
      now apply apply_kernel_u8 in Ep.
Qed.

Lemma reachable_configured_witness :
  configured 0 640 480 []
    (snd (stop_capture (after_first_call [Some (flat 100)]))).
Proof.
  apply (reachable_configured 0 640 480 (world_of 0 [Some (flat 100)])).
  apply reach_stop. apply reach_motion. apply reach_init.
Defined.

Lemma steady_world_of sh index feed :
  Forall (fun r => match r with
                   | Some f => shape f = sh
                   | None => True
                   end) feed ->
  steady sh (world_of index feed).
Proof.
  intros H i l f. unfold world_of. cbn [camera].
  destruct (i =? index); [|discriminate].
  intros E Hin. injection E as <-.
  rewrite Forall_forall in H. exact (H _ Hin).
Qed.

Lemma get_motion_never_raises_witness :
  exists r m',
    get_motion (after_first_call [Some (flat 100); None; Some (flat 3)]) =
      (Return r, m').
Proof.
  apply (get_motion_never_raises (2%nat, 2%nat) 0 640 480
           (world_of 0 [Some (flat 100); None; Some (flat 3)])).
  - repeat split.
  - apply steady_world_of. repeat constructor.
  - apply reach_motion. apply reach_init.
Defined.

